(** * life-matters: the API server of backend/index.js and the zone engine it caches

    The development embeds the request handlers of [backend/index.js]
    (catalog listing, zones listing, traffic-police registration, the
    socket handler for route matching) and the start-up routine
    [initializeClusters] as Rocq definitions, and states the properties
    of the specification over them.

    [utils/trafficSignalClusters.js], [utils/trafficSignalMatcher.js] and
    the Mongoose models are imported by [index.js] but are not part of the
    sources at hand.  What [index.js] needs from them is either taken as
    an input of the handler that uses it (the outcome of a promise) or,
    for the clustering engine, modelled from the specification.

    The last part embeds the ambulance main page of the frontend
    ([AmbulanceMainPage.tsx]): its state, its handlers and what it
    renders. *)

From stdpp Require Import base list sorting strings numbers functions pretty gmap.
From Stdlib Require Import QArith Qcanon ZArith.

Local Open Scope Z_scope.

(** ** Values *)

(** Coordinates are JavaScript numbers; the handlers only copy and compare
    them, so they are modelled as rationals in canonical form (equal
    numbers are equal terms). *)
Definition number : Type := Qc.

Definition num (z : Z) : number := Q2Qc (inject_Z z).

(** Comparison of numbers, as a boolean. *)
Definition leb (x y : number) : bool := Qle_bool x y.

(** How an awaited promise settles. *)
Inductive Outcome (A : Type) : Type :=
| Fulfilled (value : A)
| Rejected (reason : string).
Arguments Fulfilled {A} value.
Arguments Rejected {A} reason.

(** [arr[i]] for an integer [i]: the element at that position, [undefined]
    (here [None]) for a negative index or one past the end. *)
Definition js_index {A : Type} (arr : list A) (i : Z) : option A :=
  if decide (i < 0) then None else arr !! Z.to_nat i.

(** ** Data model (specification, section 3) *)

Record GeoPoint : Type := { lat : number; lon : number }.

Record SignalRecord : Type := { sig_id : string; location : GeoPoint }.

(** Modelled from the spec: the zone objects held in [clusters] and returned
    by [createClusters] are built in utils/trafficSignalClusters.js, which is
    missing; a zone is the [Zone] entity of section 3, with its 1-based
    index, its members and its centroid. *)
Record Zone : Type := {
  index : nat;
  members : list SignalRecord;
  centroid : GeoPoint
}.

(** ** HTTP responses *)

(** One entry of the array served by GET /api/traffic-signal. *)
Record SignalJson : Type := { sj_id : Z; sj_lat : number; sj_lon : number }.

(** The object handed to [new TrafficPoliceData(...)] and saved. *)
Record TrafficPoliceData : Type := {
  name : string;
  phone : string;
  clusterZone : Zone
}.

Inductive Body : Type :=
| Message (message : string)
| Signals (results : list SignalJson)
| Clusters (zones : list Zone)
| Registration (message : string) (data : TrafficPoliceData).

Record Response : Type := { status : Z; body : Body }.

(** [res.json(b)] without [res.status(...)] answers 200. *)
Definition json (b : Body) : Response := {| status := 200; body := b |}.

Definition status_json (code : Z) (b : Body) : Response :=
  {| status := code; body := b |}.

(** ** GET /api/traffic-signal *)

(** An element of the stored traffic-signal document.  The handler reads
    [id], [lat] and [lon]; [el_other] stands for whatever else the stored
    element carries. *)
Record Element : Type := {
  el_id : Z;
  el_lat : number;
  el_lon : number;
  el_other : list (string * string)
}.

(** What [TrafficSignal.findOne()] resolves with: [null] or a document whose
    [elements] may be absent. *)
Record TrafficSignalDoc : Type := { elements : option (list Element) }.

Definition toSignalJson (element : Element) : SignalJson :=
  {| sj_id := el_id element; sj_lat := el_lat element; sj_lon := el_lon element |}.

Definition getTrafficSignal (findOne : Outcome (option TrafficSignalDoc)) : Response :=
  match findOne with
  | Fulfilled (Some {| elements := Some els |}) =>
      json (Signals (map toSignalJson els))
  | Fulfilled _ =>
      status_json 404 (Message "No traffic signal data found")
  | Rejected _ =>
      status_json 500 (Message "Internal Server Error")
  end.

(** The coordinate invariant of the data model: lat in [-90, 90] and lon in
    [-180, 180]. *)
Definition in_range (la lo : number) : bool :=
  leb (num (-90)) la && leb la (num 90) && leb (num (-180)) lo && leb lo (num 180).

(** ** GET /api/traffic-clusters *)

Definition getTrafficClusters (cachedClusters : list Zone) : Response :=
  if decide (length cachedClusters = 0%nat)
  then status_json 503 (Message "Clusters are still being processed. Try again later.")
  else json (Clusters cachedClusters).

(** ** POST /api/traffic-police-register *)

(** The fields destructured from [req.body]; each may be absent.  [cluster]
    is an integer when present, [name] and [phone] are strings. *)
Record RegisterBody : Type := {
  body_cluster : option Z;
  body_name : option string;
  body_phone : option string
}.

(** JavaScript truthiness: [undefined], [0] and the empty string are falsy. *)
Definition truthy_number (v : option Z) : option Z :=
  match v with
  | Some z => if decide (z = 0) then None else Some z
  | None => None
  end.

Definition truthy_string (v : option string) : option string :=
  match v with
  | Some s => if decide (s = "") then None else Some s
  | None => None
  end.

(** The handler, given the array [unfilteredClusters] refers to, whether
    [trafficPolice.save()] succeeds, and the stored registrations.  It
    returns the response and the registrations afterwards. *)
Definition registerTrafficPolice (unfilteredClusters : list Zone) (saveOk : bool)
    (req : RegisterBody) (store : list TrafficPoliceData)
    : Response * list TrafficPoliceData :=
  match truthy_number (body_cluster req),
        truthy_string (body_name req),
        truthy_string (body_phone req) with
  | Some zoneId, Some name, Some phone =>
      match js_index unfilteredClusters (zoneId - 1) with
      | None =>
          (status_json 404
             (Message ("Cluster with ID " +:+ pretty zoneId +:+ " not found")),
           store)
      | Some clusterZone =>
          let trafficPoliceData :=
            {| name := name; phone := phone; clusterZone := clusterZone |} in
          if saveOk
          then (status_json 201
                  (Registration "Traffic police registered successfully"
                     trafficPoliceData),
                store ++ [trafficPoliceData])
          else (status_json 500 (Message "Internal Server Error"), store)
      end
  | _, _, _ =>
      (status_json 400 (Message "Missing required fields"), store)
  end.

(** ** Socket: request-traffic-signals *)

Definition REQUEST_TRAFFIC_SIGNALS_EVENT : string := "request-traffic-signals".
Definition TRAFFIC_SIGNALS_MATCHES_EVENT : string := "traffic-signals-matches".

(** Modelled from the spec: the objects [findNearbyTrafficSignals] resolves
    with come from utils/trafficSignalMatcher.js, which is missing.  The
    handler reads [signal.trafficSignal.geometry.coordinates]; the identity
    of the signal, the route index and the distance are the internal fields
    of the [MatchResult] of section 3. *)
Record Geometry : Type := { coordinates : list number }.

Record Feature : Type := { feature_id : string; geometry : Geometry }.

Record MatchResult : Type := {
  trafficSignal : Feature;
  routeIndex : nat;
  distance : number
}.

(** One entry of the emitted array: [{ lat: coordinates[1], lng: coordinates[0] }];
    a coordinate the array lacks is [undefined]. *)
Record LatLng : Type := { ll_lat : option number; ll_lng : option number }.

Inductive Payload : Type :=
| MatchedData (matchedData : list LatLng)
| ErrorMessage (message : string).

Record Emit : Type := { event : string; payload : Payload }.

Definition toLatLng (signal : MatchResult) : LatLng :=
  {| ll_lat := js_index (coordinates (geometry (trafficSignal signal))) 1;
     ll_lng := js_index (coordinates (geometry (trafficSignal signal))) 0 |}.

(** [findNearbyTrafficSignals] is imported from the missing matcher module;
    the handler is given it as a function from the route to the way its
    promise settles. *)
Definition onRequestTrafficSignals
    (findNearbyTrafficSignals : list GeoPoint → Outcome (list MatchResult))
    (routePoints : list GeoPoint) : Emit :=
  match findNearbyTrafficSignals routePoints with
  | Fulfilled signals =>
      {| event := TRAFFIC_SIGNALS_MATCHES_EVENT;
         payload := MatchedData (map toLatLng signals) |}
  | Rejected _ =>
      {| event := TRAFFIC_SIGNALS_MATCHES_EVENT;
         payload := ErrorMessage "Error fetching traffic signals" |}
  end.

(** ** Process state and [initializeClusters] *)

(** Arrays are objects: a variable holds a reference, and two variables may
    hold the same one.  The two array literals of [index.js] are private to
    it; every other array is allocated inside trafficSignalClusters.js. *)
Inductive Ref : Type :=
| UnfilteredLiteral            (* the [] of [let unfilteredClusters = []] *)
| CachedLiteral                (* the [] of [let cachedClusters = []] *)
| ModuleArray (n : nat).       (* an array of trafficSignalClusters.js *)

Global Instance Ref_eq_dec : EqDecision Ref.
Proof. solve_decision. Defined.

Definition is_module_array (r : Ref) : bool :=
  match r with ModuleArray _ => true | _ => false end.

(** Where [initializeClusters] stands: not called yet, suspended at
    [await createClusters()], or returned. *)
Inductive Phase : Type := NotStarted | Awaiting | Completed.

Record Server : Type := {
  heap : Ref → list Zone;
  cachedClusters : Ref;
  unfilteredClusters : Ref;
  clusters : Ref;               (* the live binding imported from the module *)
  phase : Phase;
  registrations : list TrafficPoliceData
}.

Definition set_heap (h : Ref → list Zone) (s : Server) : Server :=
  {| heap := h; cachedClusters := cachedClusters s;
     unfilteredClusters := unfilteredClusters s; clusters := clusters s;
     phase := phase s; registrations := registrations s |}.

Definition set_cachedClusters (r : Ref) (s : Server) : Server :=
  {| heap := heap s; cachedClusters := r;
     unfilteredClusters := unfilteredClusters s; clusters := clusters s;
     phase := phase s; registrations := registrations s |}.

Definition set_unfilteredClusters (r : Ref) (s : Server) : Server :=
  {| heap := heap s; cachedClusters := cachedClusters s;
     unfilteredClusters := r; clusters := clusters s;
     phase := phase s; registrations := registrations s |}.

Definition set_clusters (r : Ref) (s : Server) : Server :=
  {| heap := heap s; cachedClusters := cachedClusters s;
     unfilteredClusters := unfilteredClusters s; clusters := r;
     phase := phase s; registrations := registrations s |}.

Definition set_phase (p : Phase) (s : Server) : Server :=
  {| heap := heap s; cachedClusters := cachedClusters s;
     unfilteredClusters := unfilteredClusters s; clusters := clusters s;
     phase := p; registrations := registrations s |}.

Definition set_registrations (l : list TrafficPoliceData) (s : Server) : Server :=
  {| heap := heap s; cachedClusters := cachedClusters s;
     unfilteredClusters := unfilteredClusters s; clusters := clusters s;
     phase := phase s; registrations := l |}.

(** The state when the module body of [index.js] starts: both variables hold
    their own empty literal, [clusters] is bound to an array of the
    clustering module, and the store holds [stored]. *)
Definition boot (exported : nat) (moduleHeap : nat → list Zone)
    (stored : list TrafficPoliceData) : Server :=
  {| heap := λ r, match r with ModuleArray n => moduleHeap n | _ => [] end;
     cachedClusters := CachedLiteral;
     unfilteredClusters := UnfilteredLiteral;
     clusters := ModuleArray exported;
     phase := NotStarted;
     registrations := stored |}.

(** The list a reader of the zones listing is served from. *)
Definition published (s : Server) : list Zone := heap s (cachedClusters s).

(** The list a registration resolves its zone in. *)
Definition lookedUp (s : Server) : list Zone := heap s (unfilteredClusters s).

(** What happens in the process, one event-loop turn at a time.  While
    [initializeClusters] is suspended, [createClusters] may fill or change
    any array of its module and rebind [clusters] as it likes; the promise
    then fulfils with one of the module's arrays or rejects.  Requests are
    served at any time. *)
Inductive Event : Type :=
| Initialize
| ModuleWrite (r : Ref) (zones : list Zone)
| ModuleExport (r : Ref)
| Resolve (r : Ref)
| Fail (reason : string)
| TrafficClusters (res : Response)
| Register (req : RegisterBody) (saveOk : bool) (res : Response).

(** [initializeClusters] after the await: on fulfilment the assignment to
    [cachedClusters], then in both cases [unfilteredClusters = clusters]. *)
Definition resume (settled : Outcome Ref) (s : Server) : Server :=
  let s1 := match settled with
            | Fulfilled r => set_cachedClusters r s
            | Rejected _ => s
            end in
  set_phase Completed (set_unfilteredClusters (clusters s1) s1).

Inductive step : Server → Event → Server → Prop :=
| step_initialize s :
    phase s = NotStarted →
    step s Initialize (set_phase Awaiting s)
| step_module_write s n zones :
    phase s = Awaiting →
    step s (ModuleWrite (ModuleArray n) zones)
         (set_heap (<[ModuleArray n := zones]> (heap s)) s)
| step_module_export s n :
    phase s = Awaiting →
    step s (ModuleExport (ModuleArray n)) (set_clusters (ModuleArray n) s)
| step_resolve s n :
    phase s = Awaiting →
    step s (Resolve (ModuleArray n)) (resume (Fulfilled (ModuleArray n)) s)
| step_fail s reason :
    phase s = Awaiting →
    step s (Fail reason) (resume (Rejected reason) s)
| step_traffic_clusters s :
    step s (TrafficClusters (getTrafficClusters (published s))) s
| step_register s req saveOk :
    step s
         (Register req saveOk
            (registerTrafficPolice (lookedUp s) saveOk req (registrations s)).1)
         (set_registrations
            (registerTrafficPolice (lookedUp s) saveOk req (registrations s)).2 s).

Inductive run : Server → list Event → Server → Prop :=
| run_done s : run s [] s
| run_step s e s' es s'' : step s e s' → run s' es s'' → run s (e :: es) s''.

Definition is_resolve (e : Event) : bool :=
  match e with Resolve _ => true | _ => false end.

Definition is_request (e : Event) : bool :=
  match e with TrafficClusters _ | Register _ _ _ => true | _ => false end.

(** ** The zone clustering engine (specification, section 4.4) *)

(** Step 1 sorts the catalog by latitude, then longitude, then id. *)
Definition key_le (a b : SignalRecord) : Prop :=
  (lat (location a) < lat (location b))%Qc ∨
  (lat (location a) = lat (location b) ∧
   ((lon (location a) < lon (location b))%Qc ∨
    (lon (location a) = lon (location b) ∧ String.le (sig_id a) (sig_id b)))).

Global Instance key_le_dec : RelDecision key_le.
Proof. intros a b. unfold key_le. apply _. Defined.

Global Instance GeoPoint_eq_dec : EqDecision GeoPoint.
Proof. solve_decision. Defined.

Global Instance SignalRecord_eq_dec : EqDecision SignalRecord.
Proof. solve_decision. Defined.

(** A zone while it is being built: its current centroid and its members. *)
Record Group : Type := { g_centroid : GeoPoint; g_members : list SignalRecord }.

Definition add_member (s : SignalRecord) (g : Group) : Group :=
  {| g_centroid := g_centroid g; g_members := g_members g ++ [s] |}.

Definition new_group (s : SignalRecord) : Group :=
  {| g_centroid := location s; g_members := [s] |}.

Definition without_members (g : Group) : Group :=
  {| g_centroid := g_centroid g; g_members := [] |}.

Definition has_members (g : Group) : bool :=
  match g_members g with [] => false | _ :: _ => true end.

(** Step 5 orders the zones by centroid latitude, then longitude. *)
Definition centroid_le (a b : Group) : Prop :=
  (lat (g_centroid a) < lat (g_centroid b))%Qc ∨
  (lat (g_centroid a) = lat (g_centroid b) ∧
   (lon (g_centroid a) ≤ lon (g_centroid b))%Qc).

Global Instance centroid_le_dec : RelDecision centroid_le.
Proof. intros a b. unfold centroid_le. apply _. Defined.

Definition sum (xs : list number) : number := foldr Qcplus (num 0) xs.

Definition mean (xs : list number) : number :=
  (sum xs / num (Z.of_nat (length xs)))%Qc.

(** Step 3: the centroid of a zone is the mean of its members' coordinates. *)
Definition centroid_of (ms : list SignalRecord) : GeoPoint :=
  {| lat := mean (map (λ s, lat (location s)) ms);
     lon := mean (map (λ s, lon (location s)) ms) |}.

Definition recompute (gs : list Group) : list Group :=
  map (λ g, {| g_centroid := centroid_of (g_members g);
               g_members := g_members g |}) gs.

Definition number_zones (gs : list Group) : list Zone :=
  imap (λ i g, {| index := S i; members := g_members g;
                  centroid := g_centroid g |})
       (merge_sort centroid_le gs).

Inductive ClusterError : Type := InvalidParameter.

Section Engine.

(** The great-circle distance of the geo primitives is floating-point
    trigonometry; the engine is stated over any distance function.  The
    iteration cap of the relaxation is a configuration value. *)
Variable distanceMeters : GeoPoint → GeoPoint → number.
Variable maxIterations : nat.

(** The zone whose current centroid is nearest to [p], as its position and
    its distance; among equally near zones the first one. *)
Fixpoint nearest_from (p : GeoPoint) (gs : list Group) (i : nat)
    (best : option (nat * number)) : option (nat * number) :=
  match gs with
  | [] => best
  | g :: gs' =>
      let d := distanceMeters p (g_centroid g) in
      let best' := match best with
                   | Some (_, bd) => if decide (d < bd)%Qc then Some (i, d) else best
                   | None => Some (i, d)
                   end in
      nearest_from p gs' (S i) best'
  end.

Definition nearest (p : GeoPoint) (gs : list Group) : option (nat * number) :=
  nearest_from p gs 0%nat None.

(** Step 2, one signal: it joins the nearest zone when that zone's current
    centroid is within the radius, and seeds a new zone otherwise. *)
Definition seed_one (targetRadiusMeters : number) (gs : list Group)
    (s : SignalRecord) : list Group :=
  match nearest (location s) gs with
  | Some (i, d) =>
      if decide (d ≤ targetRadiusMeters)%Qc
      then alter (add_member s) i gs
      else gs ++ [new_group s]
  | None => gs ++ [new_group s]
  end.

Definition seed (targetRadiusMeters : number) (sorted : list SignalRecord)
    : list Group :=
  foldl (seed_one targetRadiusMeters) [] sorted.

(** Step 4, one round: every signal goes to the zone with the nearest
    centroid; zones left without members are dropped and the centroids
    recomputed. *)
Definition reassign_one (gs acc : list Group) (s : SignalRecord) : list Group :=
  match nearest (location s) gs with
  | Some (i, _) => alter (add_member s) i acc
  | None => acc
  end.

Definition reassign (gs : list Group) (sorted : list SignalRecord) : list Group :=
  foldl (reassign_one gs) (map without_members gs) sorted.

Definition relax_once (sorted : list SignalRecord) (gs : list Group) : list Group :=
  recompute (filter (λ g, has_members g = true) (reassign gs sorted)).

(** Rounds are repeated until no signal changes zone or the cap is hit. *)
Fixpoint relax (rounds : nat) (sorted : list SignalRecord) (gs : list Group)
    : list Group :=
  match rounds with
  | O => gs
  | S rounds' =>
      let gs' := relax_once sorted gs in
      if decide (map g_members gs' = map g_members gs)
      then gs'
      else relax rounds' sorted gs'
  end.

(** Modelled from the spec: [cluster] of section 4.4, the engine behind
    [createClusters] of utils/trafficSignalClusters.js, which is missing:
    sort, greedy seeding, centroids, bounded relaxation, then indices 1..N
    by ascending centroid.  A non-positive radius is [InvalidParameter]. *)
Definition cluster (catalog : list SignalRecord) (targetRadiusMeters : number)
    : ClusterError + list Zone :=
  if decide (targetRadiusMeters ≤ num 0)%Qc then inl InvalidParameter
  else
    let sorted := merge_sort key_le catalog in
    inr (number_zones
           (relax maxIterations sorted
              (recompute (seed targetRadiusMeters sorted)))).

(** Modelled from the spec: [createClusters] of the missing
    utils/trafficSignalClusters.js, as the events it causes while
    [initializeClusters] awaits it.  It loads the catalog and runs
    [cluster]; the zone index is built wholesale in a new array, published
    as [clusters], and the promise fulfils with the same zones (section
    6: one sequence for the listing and for registration lookups).  A
    catalog that cannot be loaded or a bad radius rejects the promise and
    publishes nothing. *)
Definition createClusters (load : Outcome (list SignalRecord))
    (targetRadiusMeters : number) (fresh : nat) : list Event :=
  match load with
  | Rejected reason => [Fail "CatalogUnavailable"]
  | Fulfilled catalog =>
      match cluster catalog targetRadiusMeters with
      | inl _ => [Fail "InvalidParameter"]
      | inr zones =>
          [ModuleWrite (ModuleArray fresh) zones;
           ModuleExport (ModuleArray fresh);
           Resolve (ModuleArray fresh)]
      end
  end.

End Engine.

(** A planar stand-in for the great-circle distance, used to run the engine
    on examples: one degree is 111 km along either axis, distances add up
    along the axes. *)
Definition Qcabs (x : number) : number := if decide (x < num 0)%Qc then (- x)%Qc else x.

Definition gridMeters (a b : GeoPoint) : number :=
  (num 111000 * (Qcabs (lat a - lat b) + Qcabs (lon a - lon b)))%Qc.

(** ** Outcomes of a registration, named *)

Definition missing_fields : Response :=
  status_json 400 (Message "Missing required fields").

Definition registered (name phone : string) (zone : Zone) : Response :=
  status_json 201
    (Registration "Traffic police registered successfully"
       {| name := name; phone := phone; clusterZone := zone |}).

(** A request fails validation when the zone index, the name or the phone
    is missing (absent or falsy). *)
Definition fails_validation (req : RegisterBody) : Prop :=
  truthy_number (body_cluster req) = None
  ∨ truthy_string (body_name req) = None
  ∨ truthy_string (body_phone req) = None.

(** A request references a zone that does not exist. *)
Definition references_missing_zone (zones : list Zone) (req : RegisterBody) : Prop :=
  ∃ zoneId, truthy_number (body_cluster req) = Some zoneId
            ∧ js_index zones (zoneId - 1) = None.

(** ** The process, executably *)

Global Instance Zone_eq_dec : EqDecision Zone.
Proof. solve_decision. Defined.

Global Instance SignalJson_eq_dec : EqDecision SignalJson.
Proof. solve_decision. Defined.

Global Instance TrafficPoliceData_eq_dec : EqDecision TrafficPoliceData.
Proof. solve_decision. Defined.

Global Instance Body_eq_dec : EqDecision Body.
Proof. solve_decision. Defined.

Global Instance Response_eq_dec : EqDecision Response.
Proof. solve_decision. Defined.

(** One event applied to a state: the state it leads to, or [None] when the
    event cannot happen there (wrong phase, an array the module does not
    own, a response the handler would not give). *)
Definition exec_step (e : Event) (s : Server) : option Server :=
  match e, phase s with
  | Initialize, NotStarted => Some (set_phase Awaiting s)
  | ModuleWrite (ModuleArray n) zones, Awaiting =>
      Some (set_heap (<[ModuleArray n := zones]> (heap s)) s)
  | ModuleExport (ModuleArray n), Awaiting => Some (set_clusters (ModuleArray n) s)
  | Resolve (ModuleArray n), Awaiting => Some (resume (Fulfilled (ModuleArray n)) s)
  | Fail reason, Awaiting => Some (resume (Rejected reason) s)
  | TrafficClusters res, _ =>
      if decide (res = getTrafficClusters (published s)) then Some s else None
  | Register req saveOk res, _ =>
      let out := registerTrafficPolice (lookedUp s) saveOk req (registrations s) in
      if decide (res = out.1) then Some (set_registrations out.2 s) else None
  | _, _ => None
  end.

Fixpoint exec (es : list Event) (s : Server) : option Server :=
  match es with
  | [] => Some s
  | e :: es' =>
      match exec_step e s with
      | Some s' => exec es' s'
      | None => None
      end
  end.

(** The state with its stored registrations left out: what start-up reads
    and writes. *)
Definition forget_registrations (s : Server) : Server := set_registrations [] s.

(** The events of a trace that belong to start-up, requests left out. *)
Definition startup_events (tr : list Event) : list Event :=
  filter (λ e, is_request e = false) tr.

(** ** The ambulance main page
       (frontend/src/pages/Ambulance-Main-Page/AmbulanceMainPage.tsx)

    The component keeps its state in React state variables; its handlers
    read that state and call the setters.  Here the state is a record, a
    handler a function from the state (and what the browser, the Google
    Maps services or the user answer) to the next state.  Beside the state
    variables the record holds what the handlers change outside React: the
    text of the source input, [localStorage], the paths given to
    [router.push] and the URLs given to [window.open].  What the handlers
    do to the Google map itself (panning, detaching a marker) is not
    recorded. *)
Module AmbulanceMainPage.

Record Coords : Type := { latitude : number; longitude : number }.

Record Marker : Type := { position : Coords; title : string }.

(** A place of the autocomplete: its [geometry] and the [location] in it
    may be absent. *)
Record PlaceGeometry : Type := { location : option Coords }.

Record Place : Type := { geometry : option PlaceGeometry }.

(** The answer of the directions service: [routes[0].legs[0]] carries the
    texts shown for distance and duration. *)
Record Leg : Type := { distance_text : string; duration_text : string }.

Record Route : Type := { legs : list Leg }.

Record DirectionsResult : Type := { routes : list Route }.

Record Page : Type := {
  map : option nat;
  sourceMarker : option Marker;
  destinationMarker : option Marker;
  directions : option DirectionsResult;
  error : option string;
  currentLocation : option Coords;
  distance : string;
  duration : string;
  sourceInput : string;
  storage : gmap string string;
  pushed : list string;
  opened : list string
}.

Definition setMap (v : option nat) (s : Page) : Page :=
  {| map := v; sourceMarker := sourceMarker s;
     destinationMarker := destinationMarker s; directions := directions s;
     error := error s; currentLocation := currentLocation s;
     distance := distance s; duration := duration s;
     sourceInput := sourceInput s; storage := storage s; pushed := pushed s;
     opened := opened s |}.

Definition setSourceMarker (v : option Marker) (s : Page) : Page :=
  {| map := map s; sourceMarker := v;
     destinationMarker := destinationMarker s; directions := directions s;
     error := error s; currentLocation := currentLocation s;
     distance := distance s; duration := duration s;
     sourceInput := sourceInput s; storage := storage s; pushed := pushed s;
     opened := opened s |}.

Definition setDestinationMarker (v : option Marker) (s : Page) : Page :=
  {| map := map s; sourceMarker := sourceMarker s; destinationMarker := v;
     directions := directions s; error := error s;
     currentLocation := currentLocation s; distance := distance s;
     duration := duration s; sourceInput := sourceInput s;
     storage := storage s; pushed := pushed s; opened := opened s |}.

Definition setDirections (v : option DirectionsResult) (s : Page) : Page :=
  {| map := map s; sourceMarker := sourceMarker s;
     destinationMarker := destinationMarker s; directions := v;
     error := error s; currentLocation := currentLocation s;
     distance := distance s; duration := duration s;
     sourceInput := sourceInput s; storage := storage s; pushed := pushed s;
     opened := opened s |}.

Definition setError (v : option string) (s : Page) : Page :=
  {| map := map s; sourceMarker := sourceMarker s;
     destinationMarker := destinationMarker s; directions := directions s;
     error := v; currentLocation := currentLocation s;
     distance := distance s; duration := duration s;
     sourceInput := sourceInput s; storage := storage s; pushed := pushed s;
     opened := opened s |}.

Definition setCurrentLocation (v : option Coords) (s : Page) : Page :=
  {| map := map s; sourceMarker := sourceMarker s;
     destinationMarker := destinationMarker s; directions := directions s;
     error := error s; currentLocation := v; distance := distance s;
     duration := duration s; sourceInput := sourceInput s;
     storage := storage s; pushed := pushed s; opened := opened s |}.

Definition setDistance (v : string) (s : Page) : Page :=
  {| map := map s; sourceMarker := sourceMarker s;
     destinationMarker := destinationMarker s; directions := directions s;
     error := error s; currentLocation := currentLocation s; distance := v;
     duration := duration s; sourceInput := sourceInput s;
     storage := storage s; pushed := pushed s; opened := opened s |}.

Definition setDuration (v : string) (s : Page) : Page :=
  {| map := map s; sourceMarker := sourceMarker s;
     destinationMarker := destinationMarker s; directions := directions s;
     error := error s; currentLocation := currentLocation s;
     distance := distance s; duration := v; sourceInput := sourceInput s;
     storage := storage s; pushed := pushed s; opened := opened s |}.

Definition set_sourceInput (v : string) (s : Page) : Page :=
  {| map := map s; sourceMarker := sourceMarker s;
     destinationMarker := destinationMarker s; directions := directions s;
     error := error s; currentLocation := currentLocation s;
     distance := distance s; duration := duration s; sourceInput := v;
     storage := storage s; pushed := pushed s; opened := opened s |}.

Definition set_storage (v : gmap string string) (s : Page) : Page :=
  {| map := map s; sourceMarker := sourceMarker s;
     destinationMarker := destinationMarker s; directions := directions s;
     error := error s; currentLocation := currentLocation s;
     distance := distance s; duration := duration s;
     sourceInput := sourceInput s; storage := v; pushed := pushed s;
     opened := opened s |}.

Definition set_pushed (v : list string) (s : Page) : Page :=
  {| map := map s; sourceMarker := sourceMarker s;
     destinationMarker := destinationMarker s; directions := directions s;
     error := error s; currentLocation := currentLocation s;
     distance := distance s; duration := duration s;
     sourceInput := sourceInput s; storage := storage s; pushed := v;
     opened := opened s |}.

Definition set_opened (v : list string) (s : Page) : Page :=
  {| map := map s; sourceMarker := sourceMarker s;
     destinationMarker := destinationMarker s; directions := directions s;
     error := error s; currentLocation := currentLocation s;
     distance := distance s; duration := duration s;
     sourceInput := sourceInput s; storage := storage s; pushed := pushed s;
     opened := v |}.

(** The component when it mounts, over what [localStorage] holds. *)
Definition mounted (stored : gmap string string) : Page :=
  {| map := None; sourceMarker := None; destinationMarker := None;
     directions := None; error := None; currentLocation := None;
     distance := ""; duration := ""; sourceInput := "";
     storage := stored; pushed := []; opened := [] |}.

(** [router.push(path, "root", "replace")] and [window.open(url, "_blank")]. *)
Definition push (path : string) (s : Page) : Page := set_pushed (pushed s ++ [path]) s.

Definition windowOpen (url : string) (s : Page) : Page := set_opened (opened s ++ [url]) s.

(** [localStorage.getItem(key)] in a condition: [null] and the empty string
    are falsy. *)
Definition hasItem (key : string) (s : Page) : bool :=
  match truthy_string (storage s !! key) with Some _ => true | None => false end.

(** The first effect: report a load error, and leave for "/" when neither
    the token nor the user type is stored. *)
Definition authEffect (loadError : bool) (s : Page) : Page :=
  let s1 := if loadError
            then setError (Some "Google Maps API could not be loaded.") s
            else s in
  if negb (hasItem "authToken" s1) && negb (hasItem "userType" s1)
  then push "/" s1
  else s1.

(** The listeners of the two autocompletes: a place with a location becomes
    the marker. *)
Definition placeLocation (place : Place) : option Coords :=
  match geometry place with
  | Some g => location g
  | None => None
  end.

Definition sourcePlaceChanged (place : Place) (s : Page) : Page :=
  match placeLocation place with
  | Some loc => setSourceMarker (Some {| position := loc; title := "Source" |}) s
  | None => s
  end.

Definition destinationPlaceChanged (place : Place) (s : Page) : Page :=
  match placeLocation place with
  | Some loc => setDestinationMarker (Some {| position := loc; title := "Destination" |}) s
  | None => s
  end.

(** [calculateRoute] asks the directions service only when both markers are
    set. *)
Definition calculateRoute (s : Page) : bool :=
  match sourceMarker s, destinationMarker s with
  | Some _, Some _ => true
  | _, _ => false
  end.

(** The callback given to [directionsService.route].  On "OK" the result is
    stored first; reading [routes[0].legs[0]] of a result without it throws,
    which leaves distance and duration as they were. *)
Definition directionsAnswered (result : option DirectionsResult) (status : string)
    (s : Page) : Page :=
  if decide (status = "OK")
  then
    let s1 := setDirections result s in
    match result with
    | Some {| routes := {| legs := leg :: _ |} :: _ |} =>
        setDuration (duration_text leg) (setDistance (distance_text leg) s1)
    | _ => s1
    end
  else setError (Some ("Directions request failed due to " +:+ status)) s.

Definition logout (confirmLogout : bool) (s : Page) : Page :=
  if confirmLogout
  then push "/ambulance-signin"
         (set_storage (delete "userType" (delete "authToken" (storage s))) s)
  else s.

(** What the component returns: the loading text, the error alone, or the
    portal with its inputs, buttons and map. *)
Inductive View : Type := LoadingMaps | ErrorOnly (message : string) | Portal.

Definition render (isLoaded : bool) (s : Page) : View :=
  if negb isLoaded then LoadingMaps
  else match truthy_string (error s) with
       | Some message => ErrorOnly message
       | None => Portal
       end.

Section WithNumberToString.

(** How a number reads inside a template string. *)
Variable toString : number → string.

(** [fetchCurrentLocation].  It asks for the position, then for the
    permission, then for the position again; any of the three may fail.
    The function was created in an earlier render and still sees the [map]
    of that render ([closure]); a [map] that is still [null] makes
    [map.panTo] throw after the marker has been set.  [inputMounted] tells
    whether [sourceRef.current] is there. *)
Definition fetchCurrentLocation (closure : Page) (inputMounted : bool)
    (first : Outcome Coords) (permission : Outcome string) (second : Outcome Coords)
    (s : Page) : Page :=
  match first, permission with
  | Fulfilled _, Fulfilled location_permission =>
      if decide (location_permission = "granted")
      then
        match second with
        | Fulfilled coords =>
            let s1 := setCurrentLocation (Some coords) s in
            let s2 := if inputMounted
                      then set_sourceInput
                             (toString (latitude coords) +:+ ", "
                                +:+ toString (longitude coords)) s1
                      else s1 in
            let s3 := setSourceMarker
                        (Some {| position := coords; title := "Current Location" |})
                        s2 in
            match map closure with
            | Some _ => s3
            | None => setError (Some "Failed to get current location") s3
            end
        | Rejected _ => setError (Some "Failed to get current location") s
        end
      else setError (Some "Location permission denied.") s
  | _, _ => setError (Some "Failed to get current location") s
  end.

Definition googleMapsUrl (source destination : Coords) : string :=
  "https://www.google.com/maps/dir/?api=1&origin="
    +:+ toString (latitude source) +:+ "," +:+ toString (longitude source)
    +:+ "&destination="
    +:+ toString (latitude destination) +:+ "," +:+ toString (longitude destination).

Definition handleStartTrip (s : Page) : Page :=
  match sourceMarker s, destinationMarker s with
  | Some source, Some destination =>
      windowOpen (googleMapsUrl (position source) (position destination)) s
  | _, _ =>
      setError
        (Some "Please set both source and destination before starting the trip.") s
  end.

(** What can happen to the mounted component. *)
Inductive PageEvent : Type :=
| AuthEffect (loadError : bool)
| MapLoaded (mapInstance : nat)
| FetchCurrentLocation (closure : Page) (inputMounted : bool)
    (first : Outcome Coords) (permission : Outcome string) (second : Outcome Coords)
| SourcePlaceChanged (place : Place)
| DestinationPlaceChanged (place : Place)
| DirectionsAnswered (result : option DirectionsResult) (status : string)
| StartTrip
| Logout (confirmLogout : bool).

Definition handle (e : PageEvent) (s : Page) : Page :=
  match e with
  | AuthEffect loadError => authEffect loadError s
  | MapLoaded mapInstance => setMap (Some mapInstance) s
  | FetchCurrentLocation closure inputMounted first permission second =>
      fetchCurrentLocation closure inputMounted first permission second s
  | SourcePlaceChanged place => sourcePlaceChanged place s
  | DestinationPlaceChanged place => destinationPlaceChanged place s
  | DirectionsAnswered result status => directionsAnswered result status s
  | StartTrip => handleStartTrip s
  | Logout confirmLogout => logout confirmLogout s
  end.

Definition handleAll (es : list PageEvent) (s : Page) : Page :=
  foldl (λ s e, handle e s) s es.

End WithNumberToString.

Definition is_destination_choice (e : PageEvent) : bool :=
  match e with DestinationPlaceChanged _ => true | _ => false end.

Definition is_confirmed_logout (e : PageEvent) : bool :=
  match e with Logout true => true | _ => false end.

End AmbulanceMainPage.

(** ** Reading traces and responses *)

(** The promise of [createClusters] settles: it fulfils or it rejects. *)
Definition is_settle (e : Event) : bool :=
  match e with Resolve _ | Fail _ => true | _ => false end.


(** A registration request that was answered 201. *)
Definition is_created (e : Event) : bool :=
  match e with
  | Register _ _ res => bool_decide (status res = 201)
  | _ => false
  end.

(** What GET /api/traffic-signal reads of a stored element. *)
Definition id_lat_lon (element : Element) : Z * number * number :=
  (el_id element, el_lat element, el_lon element).

(** What holds of the cluster variables in every state of the process: the
    two literals of [index.js] stay empty, [clusters] is an array of the
    module, and until [initializeClusters] returns both variables still
    hold their literal. *)
Definition startup_invariant (s : Server) : Prop :=
  heap s CachedLiteral = []
  ∧ heap s UnfilteredLiteral = []
  ∧ is_module_array (clusters s) = true
  ∧ (phase s ≠ Completed →
     cachedClusters s = CachedLiteral ∧ unfilteredClusters s = UnfilteredLiteral)
  ∧ (phase s = Completed → is_module_array (unfilteredClusters s) = true).

(** ** Sample data

    Four signals in Pune forming two tight pairs about 5 km apart, the two
    zones they fall into, and requests over them. *)

Definition deg (thousandths : Z) : number := Q2Qc (thousandths # 1000).

Definition signal (i : string) (la lo : Z) : SignalRecord :=
  {| sig_id := i; location := {| lat := deg la; lon := deg lo |} |}.

Definition sigA : SignalRecord := signal "a" 18500 73850.
Definition sigB : SignalRecord := signal "b" 18501 73851.
Definition sigC : SignalRecord := signal "c" 18550 73850.
Definition sigD : SignalRecord := signal "d" 18551 73851.

Definition sampleCatalog : list SignalRecord := [sigC; sigA; sigD; sigB].

Definition zoneAB : Zone :=
  {| index := 1; members := [sigA; sigB]; centroid := centroid_of [sigA; sigB] |}.

Definition zoneCD : Zone :=
  {| index := 2; members := [sigC; sigD]; centroid := centroid_of [sigC; sigD] |}.

Definition sampleZones : list Zone := [zoneAB; zoneCD].

Definition registration (zoneId : Z) : RegisterBody :=
  {| body_cluster := Some zoneId; body_name := Some "Asha"; body_phone := Some "100" |}.

Definition outOfRangeElement : Element :=
  {| el_id := 7; el_lat := num 91; el_lon := num 200; el_other := [] |}.

Definition goodElement : Element :=
  {| el_id := 8; el_lat := deg 18500; el_lon := deg 73850;
     el_other := [("highway", "traffic_signals")] |}.

Definition sampleMatch (i : string) (k : nat) (d : Z) (coords : list number) : MatchResult :=
  {| trafficSignal := {| feature_id := i; geometry := {| coordinates := coords |} |};
     routeIndex := k; distance := num d |}.

Definition sampleRoute : list GeoPoint :=
  [ {| lat := deg 18500; lon := deg 73850 |}; {| lat := deg 18510; lon := deg 73850 |} ].

(** The process once start-up has published the two sample zones. *)
Definition servingState : Server :=
  {| heap := λ r, match r with ModuleArray 1 => sampleZones | _ => [] end;
     cachedClusters := ModuleArray 1;
     unfilteredClusters := ModuleArray 1;
     clusters := ModuleArray 1;
     phase := Completed;
     registrations := [] |}.

Definition stillProcessing : Response :=
  status_json 503 (Message "Clusters are still being processed. Try again later.").

(** A start-up during which the zones listing is read three times: before
    the call, while the module has filled its array half-way, and after the
    promise has fulfilled. *)
Definition sampleStartup : list Event :=
  [ TrafficClusters stillProcessing;
    Initialize;
    ModuleWrite (ModuleArray 1) [zoneAB];
    TrafficClusters stillProcessing;
    ModuleWrite (ModuleArray 1) sampleZones;
    ModuleExport (ModuleArray 1);
    Resolve (ModuleArray 1);
    TrafficClusters (json (Clusters sampleZones)) ].

(** A registration over the sample zones whose save fails, and a run in
    which the same officer registers twice after start-up. *)
Definition sampleRegistrations : list Event :=
  [ Register (registration 2) true (registered "Asha" "100" zoneCD);
    TrafficClusters (json (Clusters sampleZones));
    Register (registration 7) true
      (status_json 404 (Message ("Cluster with ID " +:+ pretty 7 +:+ " not found")));
    Register (registration 2) true (registered "Asha" "100" zoneCD) ].

(** A start-up whose promise rejects, with requests before and after. *)
Definition sampleFailedStartup : list Event :=
  [ Initialize;
    Register (registration 1) true
      (status_json 404 (Message ("Cluster with ID " +:+ pretty 1 +:+ " not found")));
    ModuleWrite (ModuleArray 0) [zoneAB];
    Fail "catalog unavailable";
    TrafficClusters stillProcessing;
    Register (registration 1) true (registered "Asha" "100" zoneAB);
    TrafficClusters stillProcessing ].

(** The sample start-up followed by one more reading of the zones listing. *)
Definition sampleServing : list Event :=
  sampleStartup ++ [TrafficClusters (json (Clusters sampleZones))].

(** A signed-in ambulance page, a place in Pune, and a way to print numbers. *)
Definition sampleToString (x : number) : string :=
  pretty (Qnum (this x)) +:+ "/" +:+ pretty (Zpos (Qden (this x))).

Definition signedIn : AmbulanceMainPage.Page :=
  AmbulanceMainPage.mounted
    (<["authToken" := "abc"]> (<["userType" := "ambulance"]> (<["theme" := "dark"]> ∅))).

Definition hospital : AmbulanceMainPage.Place :=
  {| AmbulanceMainPage.geometry :=
       Some {| AmbulanceMainPage.location :=
                 Some {| AmbulanceMainPage.latitude := deg 18530;
                         AmbulanceMainPage.longitude := deg 73870 |} |} |}.

Definition here : AmbulanceMainPage.Coords :=
  {| AmbulanceMainPage.latitude := deg 18500; AmbulanceMainPage.longitude := deg 73850 |}.

(** * Properties *)

(** ** Array indexing and truthiness *)

Lemma js_index_in_range {A : Type} (arr : list A) (i : Z) :
  0 ≤ i < Z.of_nat (length arr) → ∃ x, js_index arr i = Some x ∧ arr !! Z.to_nat i = Some x.
Proof.
  intros [Hlo Hhi]. unfold js_index. rewrite decide_False by lia.
  destruct (lookup_lt_is_Some_2 arr (Z.to_nat i)) as [x Hx]; [lia|].
  exists x. by rewrite Hx.
Qed.

Lemma js_index_out_of_range {A : Type} (arr : list A) (i : Z) :
  i < 0 ∨ Z.of_nat (length arr) ≤ i → js_index arr i = None.
Proof.
  intros Hi. unfold js_index. case_decide; [done|].
  apply lookup_ge_None_2. lia.
Qed.

Lemma truthy_number_Some (z : Z) : z ≠ 0 → truthy_number (Some z) = Some z.
Proof. intros Hz. simpl. by rewrite decide_False. Qed.

Lemma truthy_string_Some (s : string) : s ≠ "" → truthy_string (Some s) = Some s.
Proof. intros Hs. simpl. by rewrite decide_False. Qed.

Lemma truthy_number_inv (v : option Z) (z : Z) :
  truthy_number v = Some z → v = Some z ∧ z ≠ 0.
Proof.
  destruct v as [z'|]; simpl; [|done].
  case_decide; [done|]. intros [= <-]. done.
Qed.

Lemma truthy_string_inv (v : option string) (s : string) :
  truthy_string v = Some s → v = Some s ∧ s ≠ "".
Proof.
  destruct v as [s'|]; simpl; [|done].
  case_decide; [done|]. intros [= <-]. done.
Qed.

(** ** Zones listing *)

(** C2, as the specification states it, fails: with no zones cached the
    listing answers 503, not a successful empty list. *)
Lemma empty_listing_is_an_error :
  getTrafficClusters [] =
    status_json 503 (Message "Clusters are still being processed. Try again later.")
  ∧ getTrafficClusters [] ≠ json (Clusters []).
Proof. split; [reflexivity | discriminate]. Qed.

(** C2, amended: when clustering produced zero zones the zones listing
    answers 503 with the message that clusters are still being processed;
    it answers 200 with the zone list exactly when the list is not empty. *)
Theorem listing_of_cached_clusters (cached : list Zone) :
  (cached = [] →
   getTrafficClusters cached =
     status_json 503 (Message "Clusters are still being processed. Try again later."))
  ∧ (cached ≠ [] → getTrafficClusters cached = json (Clusters cached)).
Proof.
  unfold getTrafficClusters. split.
  - intros ->. reflexivity.
  - intros Hne. rewrite decide_False; [done|].
    destruct cached; [done | simpl; lia].
Qed.

Lemma listing_of_cached_clusters_witness :
  getTrafficClusters [] =
    status_json 503 (Message "Clusters are still being processed. Try again later.")
  ∧ getTrafficClusters sampleZones = json (Clusters sampleZones).
Proof.
  split.
  - apply (proj1 (listing_of_cached_clusters [])). reflexivity.
  - apply (proj2 (listing_of_cached_clusters sampleZones)). discriminate.
Defined.

(** ** Catalog listing *)

(** C5, as the specification states it, fails: a record whose coordinates
    are out of range is served like any other. *)
Lemma out_of_range_record_is_served :
  in_range (el_lat outOfRangeElement) (el_lon outOfRangeElement) = false
  ∧ getTrafficSignal
      (Fulfilled (Some {| elements := Some [goodElement; outOfRangeElement] |}))
    = json (Signals [toSignalJson goodElement; toSignalJson outOfRangeElement]).
Proof. split; reflexivity. Qed.

(** C5, amended: when the catalog is served, every record of the stored
    document is returned with its id, lat and lon, in the stored order,
    whether or not its coordinates are in range; no record is rejected, and
    no record makes the load fail. *)
Theorem catalog_served_whole (els : list Element) :
  getTrafficSignal (Fulfilled (Some {| elements := Some els |}))
    = json (Signals (map toSignalJson els))
  ∧ length (map toSignalJson els) = length els
  ∧ ∀ i e, els !! i = Some e →
      map toSignalJson els !! i
        = Some {| sj_id := el_id e; sj_lat := el_lat e; sj_lon := el_lon e |}.
Proof.
  split; [reflexivity|]. split; [apply length_map|].
  intros i e He. rewrite list_lookup_fmap, He. reflexivity.
Qed.

Lemma catalog_served_whole_witness :
  map toSignalJson [goodElement; outOfRangeElement] !! 1%nat
    = Some {| sj_id := 7; sj_lat := num 91; sj_lon := num 200 |}.
Proof.
  apply (proj2 (proj2 (catalog_served_whole [goodElement; outOfRangeElement]))
           1%nat outOfRangeElement).
  reflexivity.
Defined.

(** ** Route matching over the socket *)

(** C3: a failure of the matcher and a match that found nothing are told
    apart by what is emitted: the first emits an error message, the second
    an empty array of matches. *)
Theorem match_failure_is_distinguishable
    (matcher matcher' : list GeoPoint → Outcome (list MatchResult))
    (route route' : list GeoPoint) (reason : string) :
  matcher route = Rejected reason →
  matcher' route' = Fulfilled [] →
  payload (onRequestTrafficSignals matcher route)
    = ErrorMessage "Error fetching traffic signals"
  ∧ payload (onRequestTrafficSignals matcher' route') = MatchedData []
  ∧ onRequestTrafficSignals matcher route ≠ onRequestTrafficSignals matcher' route'.
Proof.
  intros Hfail Hnone. unfold onRequestTrafficSignals.
  rewrite Hfail, Hnone. simpl. repeat split; discriminate.
Qed.

Lemma match_failure_is_distinguishable_witness :
  payload (onRequestTrafficSignals (λ _, Rejected "timeout") sampleRoute)
    = ErrorMessage "Error fetching traffic signals"
  ∧ payload (onRequestTrafficSignals (λ _, Fulfilled []) sampleRoute) = MatchedData []
  ∧ onRequestTrafficSignals (λ _, Rejected "timeout") sampleRoute
    ≠ onRequestTrafficSignals (λ _, Fulfilled []) sampleRoute.
Proof.
  apply (match_failure_is_distinguishable
           (λ _, Rejected "timeout") (λ _, Fulfilled []) sampleRoute sampleRoute "timeout");
    reflexivity.
Defined.

(** C4: when the matcher answers a route request, what is emitted is one
    entry per matched signal, in the matcher's order, holding only the
    signal's coordinates: its latitude, the second entry of [coordinates],
    and its longitude, the first.  A signal at [lng, lat, ...] is emitted as
    [{lat, lng}] with those two numbers; ids, route indices and distances
    have no influence on what is emitted. *)
Theorem emitted_matches_are_coordinates
    (matcher : list GeoPoint → Outcome (list MatchResult))
    (route : list GeoPoint) (signals : list MatchResult) :
  matcher route = Fulfilled signals →
  ∃ matchedData,
    onRequestTrafficSignals matcher route
      = {| event := TRAFFIC_SIGNALS_MATCHES_EVENT; payload := MatchedData matchedData |}
    ∧ length matchedData = length signals
    ∧ (∀ i s, signals !! i = Some s →
         matchedData !! i
           = Some {| ll_lat := coordinates (geometry (trafficSignal s)) !! 1%nat;
                     ll_lng := coordinates (geometry (trafficSignal s)) !! 0%nat |})
    ∧ (∀ i s lng lat rest,
         signals !! i = Some s →
         coordinates (geometry (trafficSignal s)) = lng :: lat :: rest →
         matchedData !! i = Some {| ll_lat := Some lat; ll_lng := Some lng |})
    ∧ (∀ matcher' route' signals',
         matcher' route' = Fulfilled signals' →
         map (λ s, coordinates (geometry (trafficSignal s))) signals'
           = map (λ s, coordinates (geometry (trafficSignal s))) signals →
         onRequestTrafficSignals matcher' route'
           = onRequestTrafficSignals matcher route).
Proof.
  intros Hfound. exists (map toLatLng signals).
  unfold onRequestTrafficSignals. rewrite Hfound.
  split; [reflexivity|]. split; [apply length_map|].
  assert (∀ i s, signals !! i = Some s →
            map toLatLng signals !! i
            = Some {| ll_lat := coordinates (geometry (trafficSignal s)) !! 1%nat;
                      ll_lng := coordinates (geometry (trafficSignal s)) !! 0%nat |})
    as Hentry.
  { intros i s Hs. rewrite list_lookup_fmap, Hs. reflexivity. }
  split; [exact Hentry|]. split.
  - intros i s lng lat rest Hs Hcoords.
    rewrite (Hentry i s Hs), Hcoords. reflexivity.
  - intros matcher' route' signals' Hfound' Hcoords. rewrite Hfound'.
    do 2 f_equal.
    assert (∀ l : list MatchResult,
              map toLatLng l
              = map (λ c, {| ll_lat := js_index c 1; ll_lng := js_index c 0 |})
                    (map (λ s, coordinates (geometry (trafficSignal s))) l)) as Hvia.
    { intros l. rewrite map_map. reflexivity. }
    rewrite (Hvia signals'), (Hvia signals), Hcoords. reflexivity.
Qed.

Lemma emitted_matches_are_coordinates_witness :
  ∃ matchedData,
    onRequestTrafficSignals
      (λ _, Fulfilled [sampleMatch "n1" 0 12 [deg 73850; deg 18500];
                       sampleMatch "n2" 1 30 [deg 73851; deg 18501]])
      sampleRoute
      = {| event := TRAFFIC_SIGNALS_MATCHES_EVENT; payload := MatchedData matchedData |}
    ∧ length matchedData = 2%nat
    ∧ matchedData !! 0%nat
      = Some {| ll_lat := Some (deg 18500); ll_lng := Some (deg 73850) |}
    ∧ matchedData !! 1%nat
      = Some {| ll_lat := Some (deg 18501); ll_lng := Some (deg 73851) |}.
Proof.
  destruct (emitted_matches_are_coordinates
              (λ _, Fulfilled [sampleMatch "n1" 0 12 [deg 73850; deg 18500];
                               sampleMatch "n2" 1 30 [deg 73851; deg 18501]])
              sampleRoute
              [sampleMatch "n1" 0 12 [deg 73850; deg 18500];
               sampleMatch "n2" 1 30 [deg 73851; deg 18501]]
              eq_refl) as (matchedData & Hemit & Hlen & _ & Hvalues & _).
  exists matchedData. split; [exact Hemit|]. split; [exact Hlen|]. split.
  - exact (Hvalues 0%nat (sampleMatch "n1" 0 12 [deg 73850; deg 18500])
             (deg 73850) (deg 18500) [] eq_refl eq_refl).
  - exact (Hvalues 1%nat (sampleMatch "n2" 1 30 [deg 73851; deg 18501])
             (deg 73851) (deg 18501) [] eq_refl eq_refl).
Defined.

(** ** Registration *)

Lemma register_missing_fields zones saveOk req store :
  fails_validation req →
  registerTrafficPolice zones saveOk req store = (missing_fields, store).
Proof.
  unfold fails_validation, registerTrafficPolice.
  intros [H | [H | H]]; rewrite H; [done | |].
  - by destruct (truthy_number _).
  - by destruct (truthy_number _), (truthy_string (body_name req)).
Qed.

Lemma register_unknown_zone zones saveOk req store :
  ¬ fails_validation req →
  references_missing_zone zones req →
  ∃ zoneId,
    truthy_number (body_cluster req) = Some zoneId ∧
    registerTrafficPolice zones saveOk req store
      = (status_json 404
           (Message ("Cluster with ID " +:+ pretty zoneId +:+ " not found")),
         store).
Proof.
  unfold fails_validation, references_missing_zone, registerTrafficPolice.
  intros Hvalid (zoneId & Hid & Hnone). exists zoneId. split; [done|].
  rewrite Hid.
  destruct (truthy_string (body_name req)) eqn:Hn; [|tauto].
  destruct (truthy_string (body_phone req)) eqn:Hp; [|tauto].
  by rewrite Hnone.
Qed.

Lemma register_known_zone zones saveOk req store zoneId name phone zone :
  truthy_number (body_cluster req) = Some zoneId →
  truthy_string (body_name req) = Some name →
  truthy_string (body_phone req) = Some phone →
  js_index zones (zoneId - 1) = Some zone →
  registerTrafficPolice zones saveOk req store
    = if saveOk
      then (registered name phone zone,
            store ++ [{| name := name; phone := phone; clusterZone := zone |}])
      else (status_json 500 (Message "Internal Server Error"), store).
Proof.
  intros Hid Hn Hp Hz. unfold registerTrafficPolice.
  rewrite Hid, Hn, Hp, Hz. reflexivity.
Qed.

(** C1, as the specification states it, fails at index 0: the request is
    turned away as one with missing fields (400), not as an unknown zone
    (404). *)
Lemma index_zero_is_not_NotFound :
  (registerTrafficPolice sampleZones true (registration 0) []).1 = missing_fields
  ∧ status (registerTrafficPolice sampleZones true (registration 0) []).1 ≠ 404.
Proof. split; [reflexivity | discriminate]. Qed.

(** C1, amended: for N zones, a registration with name and phone resolves
    its 1-based zone index as follows.  Index 0 is rejected with 400
    (missing required fields); every other index outside 1..N, N+1 and the
    negative ones included, is rejected with 404 (not found); every index n
    with 1 <= n <= N resolves to the nth zone, which the registration is
    answered (201) and stored with when the save succeeds. *)
Theorem zone_lookup_by_index (zones : list Zone) (saveOk : bool)
    (name phone : string) (store : list TrafficPoliceData) (n : Z) :
  name ≠ "" → phone ≠ "" →
  let req := {| body_cluster := Some n; body_name := Some name;
                body_phone := Some phone |} in
  let N := Z.of_nat (length zones) in
  (n = 0 → registerTrafficPolice zones saveOk req store = (missing_fields, store))
  ∧ (n < 0 ∨ N < n →
     registerTrafficPolice zones saveOk req store
       = (status_json 404
            (Message ("Cluster with ID " +:+ pretty n +:+ " not found")), store))
  ∧ (1 ≤ n ≤ N →
     ∃ zone, zones !! Z.to_nat (n - 1) = Some zone
       ∧ js_index zones (n - 1) = Some zone
       ∧ registerTrafficPolice zones true req store
           = (registered name phone zone,
              store ++ [{| name := name; phone := phone; clusterZone := zone |}])).
Proof.
  intros Hname Hphone req N. split; [|split].
  - intros ->. apply register_missing_fields. left. reflexivity.
  - intros Hout.
    destruct (register_unknown_zone zones saveOk req store) as (z & Hz & ->).
    + unfold fails_validation. simpl.
      rewrite !decide_False by (try done; lia). intros [? | [? | ?]]; done.
    + exists n. split; [apply truthy_number_Some; lia|].
      apply js_index_out_of_range. lia.
    + change (truthy_number (Some n) = Some z) in Hz.
      rewrite truthy_number_Some in Hz by lia. by injection Hz as <-.
  - intros Hin.
    destruct (js_index_in_range zones (n - 1)) as (zone & Hjs & Hnth); [lia|].
    exists zone. split; [done|]. split; [done|].
    rewrite (register_known_zone zones true req store n name phone zone); try done.
    + apply truthy_number_Some. lia.
    + by apply truthy_string_Some.
    + by apply truthy_string_Some.
Qed.

Lemma zone_lookup_by_index_witness :
  registerTrafficPolice sampleZones true (registration 0) [] = (missing_fields, [])
  ∧ registerTrafficPolice sampleZones true (registration 3) []
      = (status_json 404 (Message ("Cluster with ID " +:+ pretty 3 +:+ " not found")), [])
  ∧ ∃ zone, sampleZones !! Z.to_nat (2 - 1) = Some zone
      ∧ js_index sampleZones (2 - 1) = Some zone
      ∧ registerTrafficPolice sampleZones true (registration 2) []
          = (registered "Asha" "100" zone,
             [] ++ [{| name := "Asha"; phone := "100"; clusterZone := zone |}]).
Proof.
  split; [|split].
  - apply (proj1 (zone_lookup_by_index sampleZones true "Asha" "100" [] 0
                    ltac:(discriminate) ltac:(discriminate))).
    reflexivity.
  - apply (proj1 (proj2 (zone_lookup_by_index sampleZones true "Asha" "100" [] 3
                           ltac:(discriminate) ltac:(discriminate)))).
    right. simpl. lia.
  - apply (proj2 (proj2 (zone_lookup_by_index sampleZones true "Asha" "100" [] 2
                           ltac:(discriminate) ltac:(discriminate)))).
    simpl. lia.
Defined.

(** The four ways the registration handler ends. *)
Lemma registerTrafficPolice_cases zones saveOk req store :
  (fails_validation req
   ∧ registerTrafficPolice zones saveOk req store = (missing_fields, store))
  ∨ (∃ zoneId name phone,
       truthy_number (body_cluster req) = Some zoneId
       ∧ truthy_string (body_name req) = Some name
       ∧ truthy_string (body_phone req) = Some phone
       ∧ ((js_index zones (zoneId - 1) = None
           ∧ registerTrafficPolice zones saveOk req store
             = (status_json 404
                  (Message ("Cluster with ID " +:+ pretty zoneId +:+ " not found")),
                store))
          ∨ (∃ zone, js_index zones (zoneId - 1) = Some zone
               ∧ registerTrafficPolice zones saveOk req store
                 = if saveOk
                   then (registered name phone zone,
                         store ++ [{| name := name; phone := phone;
                                      clusterZone := zone |}])
                   else (status_json 500 (Message "Internal Server Error"), store)))).
Proof.
  destruct (truthy_number (body_cluster req)) as [zoneId|] eqn:Hid;
    [|left; split; [by left | apply register_missing_fields; by left]].
  destruct (truthy_string (body_name req)) as [name|] eqn:Hn;
    [|left; split; [right; by left | apply register_missing_fields; right; by left]].
  destruct (truthy_string (body_phone req)) as [phone|] eqn:Hp;
    [|left; split; [right; by right | apply register_missing_fields; right; by right]].
  right. exists zoneId, name, phone. repeat (split; [done|]).
  destruct (js_index zones (zoneId - 1)) as [zone|] eqn:Hz.
  - right. exists zone. split; [done|].
    by apply (register_known_zone zones saveOk req store zoneId).
  - left. split; [done|].
    unfold registerTrafficPolice. by rewrite Hid, Hn, Hp, Hz.
Qed.

Lemma set_registrations_same (s : Server) : set_registrations (registrations s) s = s.
Proof. by destruct s. Qed.

(** C6: a registration request that fails validation (zone index, name or
    phone missing) or references a zone that does not exist is answered 400
    or 404 and leaves the process state as it was: no registration record
    is stored. *)
Theorem rejected_registration_stores_nothing
    (s s' : Server) (req : RegisterBody) (saveOk : bool) (res : Response) :
  step s (Register req saveOk res) s' →
  fails_validation req ∨ references_missing_zone (lookedUp s) req →
  s' = s
  ∧ registrations s' = registrations s
  ∧ (status res = 400 ∨ status res = 404).
Proof.
  intros Hstep Hrej. inversion Hstep; subst.
  destruct (registerTrafficPolice_cases (lookedUp s) saveOk req (registrations s))
    as [[_ ->] | (zoneId & name & phone & Hid & Hn & Hp & Hcase)].
  { simpl. rewrite set_registrations_same. auto. }
  destruct Hrej as [Hbad | (zoneId' & Hid' & Hnone)].
  { unfold fails_validation in Hbad. rewrite Hid, Hn, Hp in Hbad.
    destruct Hbad as [? | [? | ?]]; discriminate. }
  rewrite Hid in Hid'. injection Hid' as <-.
  destruct Hcase as [[_ ->] | (zone & Hz & _)]; [|congruence].
  simpl. rewrite set_registrations_same. auto.
Qed.

(** C10: a successful registration (201) stores a record that embeds the
    whole zone object the index resolved to, under [clusterZone] and with
    its members, together with the given name and phone; the numeric index
    of the request is not what is stored. *)
Theorem registration_embeds_zone
    (s s' : Server) (req : RegisterBody) (saveOk : bool) (res : Response) :
  step s (Register req saveOk res) s' →
  status res = 201 →
  ∃ zoneId name phone zone data,
    body_cluster req = Some zoneId
    ∧ body_name req = Some name
    ∧ body_phone req = Some phone
    ∧ js_index (lookedUp s) (zoneId - 1) = Some zone
    ∧ data = {| name := name; phone := phone; clusterZone := zone |}
    ∧ members (clusterZone data) = members zone
    ∧ registrations s' = registrations s ++ [data]
    ∧ body res = Registration "Traffic police registered successfully" data.
Proof.
  intros Hstep Hcreated. inversion Hstep; subst.
  destruct (registerTrafficPolice_cases (lookedUp s) saveOk req (registrations s))
    as [[_ Hout] | (zoneId & name & phone & Hid & Hn & Hp & Hcase)].
  { rewrite Hout in Hcreated. discriminate. }
  destruct Hcase as [[_ Hout] | (zone & Hz & Hout)].
  { rewrite Hout in Hcreated. discriminate. }
  destruct saveOk; rewrite Hout in Hcreated |- *; [|discriminate].
  apply truthy_number_inv in Hid as [Hid _].
  apply truthy_string_inv in Hn as [Hn _].
  apply truthy_string_inv in Hp as [Hp _].
  exists zoneId, name, phone, zone,
    {| name := name; phone := phone; clusterZone := zone |}.
  repeat (split; [done|]). split; reflexivity.
Qed.

Lemma rejected_registration_stores_nothing_witness :
  set_registrations
    (registerTrafficPolice (lookedUp servingState) true (registration 5)
       (registrations servingState)).2 servingState = servingState
  ∧ registrations
      (set_registrations
         (registerTrafficPolice (lookedUp servingState) true (registration 5)
            (registrations servingState)).2 servingState)
    = registrations servingState
  ∧ (status (registerTrafficPolice (lookedUp servingState) true (registration 5)
               (registrations servingState)).1 = 400
     ∨ status (registerTrafficPolice (lookedUp servingState) true (registration 5)
                 (registrations servingState)).1 = 404).
Proof.
  apply (rejected_registration_stores_nothing servingState _ (registration 5) true _
           (step_register servingState (registration 5) true)).
  right. exists 5. split; reflexivity.
Defined.

Lemma registration_embeds_zone_witness :
  ∃ zoneId name phone zone data,
    body_cluster (registration 2) = Some zoneId
    ∧ body_name (registration 2) = Some name
    ∧ body_phone (registration 2) = Some phone
    ∧ js_index (lookedUp servingState) (zoneId - 1) = Some zone
    ∧ data = {| name := name; phone := phone; clusterZone := zone |}
    ∧ members (clusterZone data) = members zone
    ∧ registrations
        (set_registrations
           (registerTrafficPolice (lookedUp servingState) true (registration 2)
              (registrations servingState)).2 servingState)
      = registrations servingState ++ [data]
    ∧ body (registerTrafficPolice (lookedUp servingState) true (registration 2)
              (registrations servingState)).1
      = Registration "Traffic police registered successfully" data.
Proof.
  apply (registration_embeds_zone servingState _ (registration 2) true _
           (step_register servingState (registration 2) true)).
  reflexivity.
Defined.

(** ** Start-up: the transition system *)

Lemma exec_step_sound (e : Event) (s s' : Server) :
  exec_step e s = Some s' → step s e s'.
Proof.
  unfold exec_step. intros H.
  destruct e as [ | r zones | r | r | reason | res | req saveOk res ].
  - destruct (phase s) eqn:Hp; simplify_eq. by constructor.
  - destruct r, (phase s) eqn:Hp; simplify_eq. by constructor.
  - destruct r, (phase s) eqn:Hp; simplify_eq. by constructor.
  - destruct r, (phase s) eqn:Hp; simplify_eq. by constructor.
  - destruct (phase s) eqn:Hp; simplify_eq. by constructor.
  - destruct (phase s); case_decide; simplify_eq; constructor.
  - destruct (phase s); case_decide; simplify_eq; constructor.
Qed.

Lemma exec_step_complete (e : Event) (s s' : Server) :
  step s e s' → exec_step e s = Some s'.
Proof.
  intros Hstep. unfold exec_step.
  inversion Hstep as [ ? Hp | ? ? ? Hp | ? ? Hp | ? ? Hp | ? ? Hp | | ]; subst;
    try (rewrite Hp; reflexivity).
  - destruct (phase s'); by rewrite decide_True.
  - destruct (phase s); by rewrite decide_True.
Qed.

Lemma exec_run (tr : list Event) (s s' : Server) :
  exec tr s = Some s' ↔ run s tr s'.
Proof.
  revert s. induction tr as [|e tr IH]; intros s; simpl.
  - split; [intros [= ->]; constructor | by inversion 1].
  - split.
    + destruct (exec_step e s) as [s1|] eqn:He; [|done].
      intros Hrest. eapply run_step; [by apply exec_step_sound | by apply IH].
    + inversion 1 as [|? ? s1 ? ? Hstep Hrest]; subst.
      rewrite (exec_step_complete _ _ _ Hstep). by apply IH.
Qed.

(** A trace determines the state it leads to. *)
Lemma run_deterministic (tr : list Event) (s s1 s2 : Server) :
  run s tr s1 → run s tr s2 → s1 = s2.
Proof. rewrite <-!exec_run. congruence. Qed.

Lemma run_app (a b : list Event) (s s'' : Server) :
  run s (a ++ b) s'' ↔ ∃ s', run s a s' ∧ run s' b s''.
Proof.
  revert s. induction a as [|e a IH]; intros s; simpl.
  - split; [intros H; exists s; split; [constructor | done]|].
    intros (s' & Ha & Hb). by inversion Ha; subst.
  - split.
    + inversion 1 as [|? ? s1 ? ? Hstep Hrest]; subst.
      apply IH in Hrest as (s' & Ha & Hb).
      exists s'. split; [by eapply run_step | done].
    + intros (s' & Ha & Hb).
      inversion Ha as [|? ? s1 ? ? Hstep Hrest]; subst.
      eapply run_step; [done|]. apply IH. eauto.
Qed.

(** ** Start-up: what readers of the zones listing observe *)

(** As long as [cachedClusters] holds an array private to [index.js], no
    event other than the fulfilment of the promise changes the published
    list: the module cannot reach that array. *)
Lemma step_keeps_published (s s' : Server) (e : Event) :
  step s e s' →
  is_module_array (cachedClusters s) = false →
  is_resolve e = false →
  cachedClusters s' = cachedClusters s ∧ published s' = published s.
Proof.
  intros Hstep Hprivate Hnot.
  inversion Hstep; subst; simpl in *; try done.
  split; [done|]. unfold published. simpl.
  apply fn_lookup_insert_ne. intros Heq. by rewrite <-Heq in Hprivate.
Qed.

Lemma run_keeps_published (tr : list Event) (s s' : Server) :
  run s tr s' →
  is_module_array (cachedClusters s) = false →
  Forall (λ e, is_resolve e = false) tr →
  cachedClusters s' = cachedClusters s ∧ published s' = published s.
Proof.
  induction 1 as [|s e s1 es s2 Hstep Hrest IH]; intros Hprivate Hnone; [done|].
  apply Forall_cons in Hnone as [He Hes].
  destruct (step_keeps_published _ _ _ Hstep Hprivate He) as [Hc Hp].
  destruct IH as [Hc' Hp']; [by rewrite Hc | done |].
  split; congruence.
Qed.

(** The fulfilment swaps the published list for the array the promise
    carries, as that array is at that moment, and ends start-up. *)
Lemma step_resolve_publishes (s s' : Server) (r : Ref) :
  step s (Resolve r) s' →
  published s' = heap s r ∧ cachedClusters s' = r ∧ phase s' = Completed.
Proof. inversion 1; subst. done. Qed.

(** After start-up nothing writes to an array or rebinds a variable. *)
Lemma step_after_startup (s s' : Server) (e : Event) :
  step s e s' →
  phase s = Completed →
  heap s' = heap s ∧ cachedClusters s' = cachedClusters s
  ∧ unfilteredClusters s' = unfilteredClusters s ∧ phase s' = Completed.
Proof.
  intros Hstep Hdone.
  inversion Hstep; subst; simpl in *; try congruence; done.
Qed.

Lemma run_after_startup (tr : list Event) (s s' : Server) :
  run s tr s' →
  phase s = Completed →
  heap s' = heap s ∧ cachedClusters s' = cachedClusters s
  ∧ unfilteredClusters s' = unfilteredClusters s ∧ phase s' = Completed.
Proof.
  induction 1 as [|s e s1 es s2 Hstep Hrest IH]; intros Hdone; [done|].
  destruct (step_after_startup _ _ _ Hstep Hdone) as (Hh & Hc & Hu & Hp).
  destruct (IH Hp) as (Hh' & Hc' & Hu' & Hp').
  repeat split; congruence.
Qed.

(** C7: during start-up every answer of the zones listing is computed from
    the list published before ([cachedClusters] as it was), until the
    promise of [createClusters] fulfils; from then on every answer is
    computed from the list the promise carried, whole.  Whatever the module
    writes into its arrays while it builds them is never served: the
    published list changes once, by the assignment to [cachedClusters]. *)
Theorem listing_sees_old_then_new
    (exported : nat) (moduleHeap : nat → list Zone) (stored : list TrafficPoliceData)
    (tr : list Event) (s : Server) :
  run (boot exported moduleHeap stored) tr s →
  ∀ pre res post,
    tr = pre ++ TrafficClusters res :: post →
    (Forall (λ e, is_resolve e = false) pre →
     res = getTrafficClusters (published (boot exported moduleHeap stored)))
    ∧ (∀ before r after s1,
         pre = before ++ Resolve r :: after →
         run (boot exported moduleHeap stored) before s1 →
         res = getTrafficClusters (heap s1 r)).
Proof.
  intros Hrun pre res post ->.
  apply run_app in Hrun as (s1 & Hpre & Hrest).
  inversion Hrest as [|? ? ? ? ? Hstep _]; subst.
  inversion Hstep; subst. split.
  - intros Hnone.
    destruct (run_keeps_published _ _ _ Hpre eq_refl Hnone) as [_ ->]. done.
  - intros before r after sA -> HA.
    apply run_app in Hpre as (sA' & HA' & Hresolved).
    rewrite <-(run_deterministic _ _ _ _ HA HA') in Hresolved.
    inversion Hresolved as [|? ? sB ? ? Hres Hafter]; subst.
    destruct (step_resolve_publishes _ _ _ Hres) as (Hpub & _ & Hdone).
    destruct (run_after_startup _ _ _ Hafter Hdone) as (Hh & Hc & _).
    unfold published in *. by rewrite Hh, Hc, Hpub.
Qed.

Lemma listing_sees_old_then_new_witness :
  stillProcessing = getTrafficClusters (published (boot 0 (λ _, []) []))
  ∧ json (Clusters sampleZones) = getTrafficClusters sampleZones.
Proof.
  destruct (exec sampleStartup (boot 0 (λ _, []) [])) as [s|] eqn:Hexec;
    [|vm_compute in Hexec; discriminate].
  apply exec_run in Hexec.
  pose proof (listing_sees_old_then_new 0 (λ _, []) [] sampleStartup s Hexec) as Hsees.
  split.
  - apply (proj1 (Hsees [TrafficClusters stillProcessing; Initialize;
                         ModuleWrite (ModuleArray 1) [zoneAB]]
                        stillProcessing
                        [ModuleWrite (ModuleArray 1) sampleZones;
                         ModuleExport (ModuleArray 1); Resolve (ModuleArray 1);
                         TrafficClusters (json (Clusters sampleZones))]
                        eq_refl)).
    repeat constructor.
  - destruct (exec [TrafficClusters stillProcessing; Initialize;
                    ModuleWrite (ModuleArray 1) [zoneAB];
                    TrafficClusters stillProcessing;
                    ModuleWrite (ModuleArray 1) sampleZones;
                    ModuleExport (ModuleArray 1)] (boot 0 (λ _, []) []))
      as [s1|] eqn:Hbefore; [|vm_compute in Hbefore; discriminate].
    assert (heap s1 (ModuleArray 1) = sampleZones) as Hbuilt.
    { vm_compute in Hbefore. injection Hbefore as <-. reflexivity. }
    apply exec_run in Hbefore.
    pose proof (proj2 (Hsees [TrafficClusters stillProcessing; Initialize;
                              ModuleWrite (ModuleArray 1) [zoneAB];
                              TrafficClusters stillProcessing;
                              ModuleWrite (ModuleArray 1) sampleZones;
                              ModuleExport (ModuleArray 1); Resolve (ModuleArray 1)]
                             (json (Clusters sampleZones)) [] eq_refl)
                  [TrafficClusters stillProcessing; Initialize;
                   ModuleWrite (ModuleArray 1) [zoneAB];
                   TrafficClusters stillProcessing;
                   ModuleWrite (ModuleArray 1) sampleZones;
                   ModuleExport (ModuleArray 1)]
                  (ModuleArray 1) [] s1 eq_refl Hbefore) as Hnew.
    rewrite Hbuilt in Hnew. exact Hnew.
Defined.

(** ** Start-up: the list registrations look zones up in *)

(** Requests touch nothing but the stored registrations, and start-up never
    looks at those. *)
Lemma exec_step_forget (e : Event) (s s' : Server) :
  exec_step e s = Some s' →
  if is_request e
  then forget_registrations s' = forget_registrations s
  else exec_step e (forget_registrations s) = Some (forget_registrations s').
Proof.
  unfold exec_step. intros H.
  destruct e as [ | r zones | r | r | reason | res | req saveOk res ]; simpl.
  - destruct (phase s) eqn:Hp; simplify_eq. reflexivity.
  - destruct r, (phase s) eqn:Hp; simplify_eq. reflexivity.
  - destruct r, (phase s) eqn:Hp; simplify_eq. reflexivity.
  - destruct r, (phase s) eqn:Hp; simplify_eq. reflexivity.
  - destruct (phase s) eqn:Hp; simplify_eq. reflexivity.
  - destruct (phase s); case_decide; simplify_eq; reflexivity.
  - destruct (phase s); case_decide; simplify_eq; reflexivity.
Qed.

Lemma exec_startup_events (tr : list Event) (s s' : Server) :
  exec tr s = Some s' →
  exec (startup_events tr) (forget_registrations s) = Some (forget_registrations s').
Proof.
  revert s. induction tr as [|e tr IH]; intros s; simpl.
  - by intros [= ->].
  - destruct (exec_step e s) as [s1|] eqn:He; [|done]. intros Hrest.
    apply exec_step_forget in He. unfold startup_events. rewrite filter_cons.
    destruct (is_request e); simpl.
    + rewrite <-He. by apply IH.
    + rewrite He. by apply IH.
Qed.

(** With [createClusters] as the specification describes it, and a module
    whose exported list is empty before its first run, the array
    registrations look zones up in and the array the zones listing serves
    hold the same sequence once [initializeClusters] has completed. *)
Lemma agreement_with_the_specified_module
    (distanceMeters : GeoPoint → GeoPoint → number) (maxIterations : nat)
    (exported : nat) (moduleHeap : nat → list Zone) (stored : list TrafficPoliceData)
    (load : Outcome (list SignalRecord)) (targetRadiusMeters : number) (fresh : nat)
    (tr : list Event) (s : Server) :
  moduleHeap exported = [] →
  run (boot exported moduleHeap stored) tr s →
  startup_events tr
    = Initialize :: createClusters distanceMeters maxIterations load
                      targetRadiusMeters fresh →
  phase s = Completed
  ∧ lookedUp s = published s
  ∧ ∀ n : Z, js_index (lookedUp s) (n - 1) = js_index (published s) (n - 1).
Proof.
  intros Hempty Hrun Hstartup.
  apply exec_run, exec_startup_events in Hrun. rewrite Hstartup in Hrun.
  assert (lookedUp s = lookedUp (forget_registrations s)) as Hl by reflexivity.
  assert (published s = published (forget_registrations s)) as Hp by reflexivity.
  assert (phase s = phase (forget_registrations s)) as Hph by reflexivity.
  rewrite Hl, Hp, Hph. clear Hl Hp Hph.
  remember (forget_registrations s) as t eqn:Ht. clear Ht.
  assert (phase t = Completed ∧ lookedUp t = published t) as [Hdone Hsame].
  { unfold createClusters in Hrun.
    destruct load as [catalog | reason].
    - destruct (cluster _ _ catalog targetRadiusMeters) as [err | zones].
      + simpl in Hrun. injection Hrun as <-. split; [done|].
        unfold lookedUp, published. simpl. done.
      + simpl in Hrun. injection Hrun as <-. split; done.
    - simpl in Hrun. injection Hrun as <-. split; [done|].
      unfold lookedUp, published. simpl. done. }
  split; [exact Hdone|]. split; [exact Hsame|].
  intros n. by rewrite Hsame.
Qed.

(** ** The clustering engine: determinism *)

Lemma Qclt_asym (x y : Qc) : (x < y)%Qc → (y < x)%Qc → False.
Proof. intros Hxy Hyx. exact (Qclt_not_le _ _ Hxy (Qclt_le_weak _ _ Hyx)). Qed.

Lemma Qclt_irrefl (x : Qc) : ¬ (x < x)%Qc.
Proof. intros H. exact (Qclt_asym _ _ H H). Qed.

Global Instance key_le_total : Total key_le.
Proof.
  intros a b. unfold key_le.
  destruct (Qc_dec (lat (location a)) (lat (location b))) as [[Hlt | Hgt] | Heq];
    [left; by left | right; by left |].
  destruct (Qc_dec (lon (location a)) (lon (location b))) as [[Hlt | Hgt] | Heq'].
  - left. right. split; [done|]. by left.
  - right. right. split; [done|]. by left.
  - destruct (total String.le (sig_id a) (sig_id b)) as [Hab | Hba].
    + left. right. split; [done|]. right. by split.
    + right. right. split; [done|]. right. by split.
Qed.

Global Instance key_le_trans : Transitive key_le.
Proof.
  intros a b c. unfold key_le.
  intros [Hab | [Eab Hab]] [Hbc | [Ebc Hbc]].
  - left. by eapply Qclt_trans.
  - left. by rewrite <-Ebc.
  - left. by rewrite Eab.
  - right. split; [congruence|].
    destruct Hab as [Hab | [Eab' Hab]], Hbc as [Hbc | [Ebc' Hbc]].
    + left. by eapply Qclt_trans.
    + left. by rewrite <-Ebc'.
    + left. by rewrite Eab'.
    + right. split; [congruence|]. by etrans.
Qed.

Global Instance key_le_antisym : AntiSymm (=) key_le.
Proof.
  intros a b. unfold key_le.
  intros [Hab | [Eab Hab]] [Hba | [Eba Hba]].
  - destruct (Qclt_asym _ _ Hab Hba).
  - rewrite Eba in Hab. destruct (Qclt_irrefl _ Hab).
  - rewrite Eab in Hba. destruct (Qclt_irrefl _ Hba).
  - destruct Hab as [Hab | [Eab' Hab]], Hba as [Hba | [Eba' Hba]].
    + destruct (Qclt_asym _ _ Hab Hba).
    + rewrite Eba' in Hab. destruct (Qclt_irrefl _ Hab).
    + rewrite Eab' in Hba. destruct (Qclt_irrefl _ Hba).
    + assert (sig_id a = sig_id b) as Hid by (by apply (anti_symm String.le)).
      destruct a as [ia [la lo]], b as [ib [lb lob]]. simpl in *. congruence.
Qed.

(** Sorting by the key forgets the order the catalog came in. *)
Lemma sorted_catalog_unique (catalog catalog' : list SignalRecord) :
  catalog ≡ₚ catalog' → merge_sort key_le catalog = merge_sort key_le catalog'.
Proof.
  intros Hperm. apply (StronglySorted_unique key_le).
  - apply StronglySorted_merge_sort; apply _.
  - apply StronglySorted_merge_sort; apply _.
  - by rewrite !merge_sort_Permutation.
Qed.

(** Zones are numbered 1..N in the order they are returned. *)
Lemma number_zones_indices (gs : list Group) :
  map index (number_zones gs) = seq 1 (length (number_zones gs)).
Proof.
  unfold number_zones. rewrite length_imap.
  change (map index) with (fmap (M:=list) index).
  rewrite fmap_imap.
  rewrite (imap_ext _ (λ j _, S j)) by done.
  by rewrite imap_seq_0, fmap_S_seq.
Qed.

Lemma number_zones_lookup (gs : list Group) (i : nat) (z : Zone) :
  number_zones gs !! i = Some z → index z = S i.
Proof.
  unfold number_zones. rewrite list_lookup_imap.
  destruct (merge_sort centroid_le gs !! i); simpl; [|done].
  by intros [= <-].
Qed.

(** C8: clustering is deterministic.  Two runs of [cluster] over the same
    catalog snapshot (the same records, in whatever order the store hands
    them over) with the same target radius return the same result; when
    they return zones, these are the same zones with the same members, and
    the zone at position n carries index n in both, counting from 1. *)
Theorem cluster_deterministic
    (distanceMeters : GeoPoint → GeoPoint → number) (maxIterations : nat)
    (catalog catalog' : list SignalRecord) (radius radius' : number) :
  catalog ≡ₚ catalog' →
  radius = radius' →
  cluster distanceMeters maxIterations catalog radius
    = cluster distanceMeters maxIterations catalog' radius'
  ∧ ∀ zones,
      cluster distanceMeters maxIterations catalog radius = inr zones →
      ∃ zones',
        cluster distanceMeters maxIterations catalog' radius' = inr zones'
        ∧ map members zones = map members zones'
        ∧ map index zones = map index zones'
        ∧ map index zones = seq 1 (length zones)
        ∧ ∀ n z, zones !! n = Some z → index z = S n ∧ zones' !! n = Some z.
Proof.
  intros Hperm <-.
  assert (cluster distanceMeters maxIterations catalog radius
          = cluster distanceMeters maxIterations catalog' radius) as Hsame.
  { unfold cluster. by rewrite (sorted_catalog_unique _ _ Hperm). }
  split; [exact Hsame|].
  intros zones Hzones. exists zones. rewrite <-Hsame.
  split; [exact Hzones|]. split; [done|]. split; [done|].
  unfold cluster in Hzones. case_decide; [done|]. injection Hzones as <-.
  split; [apply number_zones_indices|].
  intros n z Hz. split; [by eapply number_zones_lookup | done].
Qed.

Lemma cluster_deterministic_witness :
  cluster gridMeters 10 sampleCatalog (num 1000)
    = cluster gridMeters 10 (reverse sampleCatalog) (num 1000)
  ∧ ∀ zones,
      cluster gridMeters 10 sampleCatalog (num 1000) = inr zones →
      ∃ zones',
        cluster gridMeters 10 (reverse sampleCatalog) (num 1000) = inr zones'
        ∧ map members zones = map members zones'
        ∧ map index zones = map index zones'
        ∧ map index zones = seq 1 (length zones)
        ∧ ∀ n z, zones !! n = Some z → index z = S n ∧ zones' !! n = Some z.
Proof.
  apply (cluster_deterministic gridMeters 10 sampleCatalog (reverse sampleCatalog)
           (num 1000) (num 1000)).
  - symmetry. apply reverse_Permutation.
  - reflexivity.
Defined.

(** The engine on the scenarios of the specification: two tight pairs 5 km
    apart and a radius of 1000 m give two zones of two members each,
    numbered 1 and 2; an empty catalog gives no zones and no error; a
    radius of zero is refused. *)
Example cluster_two_pairs :
  match cluster gridMeters 10 sampleCatalog (num 1000) with
  | inr zones => map (λ z, (index z, map sig_id (members z))) zones
  | inl _ => []
  end = [(1%nat, ["a"; "b"]); (2%nat, ["c"; "d"])].
Proof. vm_compute. reflexivity. Qed.

Example cluster_empty_catalog :
  cluster gridMeters 10 [] (num 1000) = inr [].
Proof. reflexivity. Qed.

Example cluster_bad_radius :
  cluster gridMeters 10 sampleCatalog (num 0) = inl InvalidParameter.
Proof. reflexivity. Qed.

(** That agreement rests on what [createClusters] does: [index.js] takes
    the listing from the value the promise fulfils with and the lookups
    from the exported binding, and a module that fulfilled with another
    array than the one it exports would make them differ. *)
Lemma agreement_rests_on_the_module :
  ∃ s, run (boot 0 (λ _, []) [])
           [Initialize;
            ModuleWrite (ModuleArray 1) sampleZones;
            ModuleExport (ModuleArray 1);
            ModuleWrite (ModuleArray 2) [zoneCD];
            Resolve (ModuleArray 2)] s
       ∧ lookedUp s = sampleZones
       ∧ published s = [zoneCD].
Proof.
  eexists. split.
  - apply exec_run. reflexivity.
  - split; reflexivity.
Qed.

(** When the engine finds no zone (an empty catalog), start-up publishes the
    empty list and the zones listing keeps answering 503 afterwards. *)
Example empty_catalog_listing :
  ∃ s, run (boot 0 (λ _, []) [])
           (Initialize
              :: createClusters gridMeters 10 (Fulfilled []) (num 1000) 1
              ++ [TrafficClusters stillProcessing]) s
       ∧ phase s = Completed
       ∧ published s = [].
Proof.
  eexists. split.
  - apply exec_run. reflexivity.
  - split; reflexivity.
Qed.

(** * Further properties of backend/index.js *)

(** ** Catalog listing: status codes and what is served *)

(** X1: GET /api/traffic-signal answers 200 exactly when a document with an
    [elements] array was found, also an empty one; 404 when there is no
    document or it has no [elements]; 500 when the query fails.  It answers
    nothing else. *)
Theorem catalog_status (findOne : Outcome (option TrafficSignalDoc)) :
  (status (getTrafficSignal findOne) = 200
   ↔ ∃ els, findOne = Fulfilled (Some {| elements := Some els |})
            ∧ body (getTrafficSignal findOne) = Signals (map toSignalJson els))
  ∧ (status (getTrafficSignal findOne) = 404
     ↔ findOne = Fulfilled None ∨ findOne = Fulfilled (Some {| elements := None |}))
  ∧ (status (getTrafficSignal findOne) = 500 ↔ ∃ reason, findOne = Rejected reason)
  ∧ (status (getTrafficSignal findOne) = 200
     ∨ status (getTrafficSignal findOne) = 404
     ∨ status (getTrafficSignal findOne) = 500).
Proof.
  destruct findOne as [[[[els|]]|] | reason]; simpl;
    (split; [|split; [|split]]);
    try (split; [discriminate || (intros _; eauto) | ]);
    try (intros [? | ?]; discriminate);
    try (intros (? & ? & ?); discriminate);
    try (intros (? & ?); discriminate);
    try (intros _; reflexivity);
    eauto.
Qed.

(** X2: The served array carries the id, lat and lon of the stored elements and
    nothing else: two stored documents are answered alike exactly when
    their elements agree, one by one, on id, lat and lon. *)
Theorem catalog_depends_on_id_lat_lon (els els' : list Element) :
  getTrafficSignal (Fulfilled (Some {| elements := Some els |}))
    = getTrafficSignal (Fulfilled (Some {| elements := Some els' |}))
  ↔ map id_lat_lon els = map id_lat_lon els'.
Proof.
  simpl. split.
  - intros H. injection H as H. revert els' H.
    induction els as [|e els IH]; intros [|e' els'] H; simpl in *; try done.
    injection H as Hid Hlat Hlon Hrest.
    unfold id_lat_lon at 1 3. rewrite Hid, Hlat, Hlon. f_equal. by apply IH.
  - intros H. do 2 f_equal. revert els' H.
    induction els as [|e els IH]; intros [|e' els'] H; simpl in *; try done.
    injection H as Hid Hlat Hlon Hrest.
    unfold toSignalJson at 1 3. rewrite Hid, Hlat, Hlon. f_equal. by apply IH.
Qed.

(** ** Registration: the database and repeated requests *)

Lemma register_store (zones : list Zone) (saveOk : bool) (req : RegisterBody)
    (store : list TrafficPoliceData) :
  (status (registerTrafficPolice zones saveOk req store).1 = 201
   ∧ saveOk = true
   ∧ ∃ zoneId name phone zone,
       truthy_number (body_cluster req) = Some zoneId
       ∧ truthy_string (body_name req) = Some name
       ∧ truthy_string (body_phone req) = Some phone
       ∧ js_index zones (zoneId - 1) = Some zone
       ∧ registerTrafficPolice zones saveOk req store
         = (registered name phone zone,
            store ++ [{| name := name; phone := phone; clusterZone := zone |}]))
  ∨ (status (registerTrafficPolice zones saveOk req store).1 ≠ 201
     ∧ (registerTrafficPolice zones saveOk req store).2 = store).
Proof.
  destruct (registerTrafficPolice_cases zones saveOk req store)
    as [[_ ->] | (zoneId & name & phone & Hid & Hn & Hp & Hcase)];
    [right; by split|].
  destruct Hcase as [[_ ->] | (zone & Hz & ->)]; [right; by split|].
  destruct saveOk; [|right; by split].
  left. split; [done|]. split; [done|].
  exists zoneId, name, phone, zone. done.
Qed.

(** X3: When the save fails nothing is stored and the answer is never 201.  The
    answer is 500 exactly when the request passed validation and its zone
    exists; a request rejected for another reason is answered the same
    whether or not the database works, the save not having been tried. *)
Theorem failed_save_stores_nothing (zones : list Zone) (req : RegisterBody)
    (store : list TrafficPoliceData) :
  (registerTrafficPolice zones false req store).2 = store
  ∧ status (registerTrafficPolice zones false req store).1 ≠ 201
  ∧ (status (registerTrafficPolice zones false req store).1 = 500
     ↔ ∃ zoneId name phone zone,
         truthy_number (body_cluster req) = Some zoneId
         ∧ truthy_string (body_name req) = Some name
         ∧ truthy_string (body_phone req) = Some phone
         ∧ js_index zones (zoneId - 1) = Some zone)
  ∧ (status (registerTrafficPolice zones false req store).1 ≠ 500 →
     registerTrafficPolice zones true req store
       = registerTrafficPolice zones false req store).
Proof.
  destruct (registerTrafficPolice_cases zones false req store)
    as [[Hbad Hout] | (zoneId & name & phone & Hid & Hn & Hp & Hcase)].
  - rewrite Hout, (register_missing_fields zones true req store Hbad). simpl.
    repeat split; try done.
    intros (zoneId & name & phone & zone & Hid & Hn & Hp & _).
    destruct Hbad as [H | [H | H]]; congruence.
  - destruct Hcase as [[Hnone Hout] | (zone & Hz & Hout)]; rewrite Hout; simpl.
    + repeat split; try done.
      * intros (zoneId' & name' & phone' & zone & Hid' & _ & _ & Hz).
        congruence.
      * intros _. unfold registerTrafficPolice. by rewrite Hid, Hn, Hp, Hnone.
    + repeat split; try done.
      intros _. by exists zoneId, name, phone, zone.
Qed.

(** X4: The handler has no duplicate check: its answer never depends on the
    registrations already stored.  When a request that was answered 201 is
    sent a second time, it is answered 201 again and the record stored
    twice if the second save succeeds; if the store refuses that save the
    answer is 500 and nothing more is stored. *)
Theorem registration_is_not_deduplicated (zones : list Zone) (req : RegisterBody)
    (store : list TrafficPoliceData) (saveAgain : bool) :
  status (registerTrafficPolice zones true req store).1 = 201 →
  ∃ data,
    (registerTrafficPolice zones true req store).2 = store ++ [data]
    ∧ registerTrafficPolice zones saveAgain req (store ++ [data])
      = (if saveAgain
         then ((registerTrafficPolice zones true req store).1, store ++ [data; data])
         else (status_json 500 (Message "Internal Server Error"), store ++ [data]))
    ∧ ∀ saveOk store',
        (registerTrafficPolice zones saveOk req store').1
        = (registerTrafficPolice zones saveOk req store).1.
Proof.
  intros Hcreated.
  destruct (register_store zones true req store)
    as [(_ & _ & zoneId & name & phone & zone & Hid & Hn & Hp & Hz & Hout) | [Hno _]];
    [|done].
  exists {| name := name; phone := phone; clusterZone := zone |}.
  rewrite Hout. simpl. split; [done|]. split.
  - rewrite (register_known_zone zones saveAgain req _ zoneId name phone zone) by done.
    destruct saveAgain; [by rewrite <-app_assoc | done].
  - intros saveOk store'.
    rewrite !(register_known_zone zones saveOk req _ zoneId name phone zone) by done.
    by destruct saveOk.
Qed.

Lemma registration_is_not_deduplicated_witness :
  (∃ data,
     (registerTrafficPolice sampleZones true (registration 2) []).2 = [] ++ [data]
     ∧ registerTrafficPolice sampleZones true (registration 2) ([] ++ [data])
       = ((registerTrafficPolice sampleZones true (registration 2) []).1,
          [] ++ [data; data]))
  ∧ (∃ data,
       (registerTrafficPolice sampleZones true (registration 2) []).2 = [] ++ [data]
       ∧ registerTrafficPolice sampleZones false (registration 2) ([] ++ [data])
         = (status_json 500 (Message "Internal Server Error"), [] ++ [data])).
Proof.
  split.
  - destruct (registration_is_not_deduplicated sampleZones (registration 2) [] true
                eq_refl) as (data & Hfirst & Hsecond & _).
    exists data. split; [exact Hfirst | exact Hsecond].
  - destruct (registration_is_not_deduplicated sampleZones (registration 2) [] false
                eq_refl) as (data & Hfirst & Hsecond & _).
    exists data. split; [exact Hfirst | exact Hsecond].
Defined.

Lemma failed_save_stores_nothing_witness :
  registerTrafficPolice sampleZones true (registration 7) []
    = registerTrafficPolice sampleZones false (registration 7) [].
Proof.
  apply (proj2 (proj2 (proj2 (failed_save_stores_nothing sampleZones (registration 7) [])))).
  discriminate.
Defined.

(** ** The process: invariants of the cluster variables *)

Lemma boot_invariant exported moduleHeap stored :
  startup_invariant (boot exported moduleHeap stored).
Proof. repeat split; done. Qed.

Lemma step_invariant (s s' : Server) (e : Event) :
  step s e s' → startup_invariant s → startup_invariant s'.
Proof.
  unfold startup_invariant.
  intros Hstep (Hc & Hu & Hm & Hbefore & Hafter).
  inversion Hstep as [ ? Hp | ? ? ? Hp | ? ? Hp | ? ? Hp | ? ? Hp | | ]; subst;
    simpl; (split; [|split; [|split; [|split]]]);
    try done;
    try (rewrite fn_lookup_insert_ne by done; done);
    try (intros ?; apply Hbefore; congruence);
    try (intros ?; congruence).
Qed.

Lemma run_invariant (tr : list Event) (s s' : Server) :
  run s tr s' → startup_invariant s → startup_invariant s'.
Proof. induction 1; eauto using step_invariant. Qed.

Lemma step_not_settled (s s' : Server) (e : Event) :
  step s e s' → is_settle e = false → phase s ≠ Completed → phase s' ≠ Completed.
Proof.
  intros Hstep He Hp.
  inversion Hstep; subst; simpl in *; try done; congruence.
Qed.

Lemma run_not_settled (tr : list Event) (s s' : Server) :
  run s tr s' →
  Forall (λ e, is_settle e = false) tr →
  phase s ≠ Completed → phase s' ≠ Completed.
Proof.
  induction 1 as [|s e s1 es s2 Hstep Hrest IH]; intros Hnone Hp; [done|].
  apply Forall_cons in Hnone as [He Hes].
  eauto using step_not_settled.
Qed.

(** Until [initializeClusters] has returned, registrations resolve their
    zone in the empty literal. *)
Lemma lookedUp_before_completion (s : Server) :
  startup_invariant s → phase s ≠ Completed → lookedUp s = [] ∧ published s = [].
Proof.
  intros (Hc & Hu & _ & Hbefore & _) Hp.
  destruct (Hbefore Hp) as [Hcached Hunf].
  unfold lookedUp, published. by rewrite Hcached, Hunf.
Qed.

(** ** The process: requests during and after start-up *)

(** X5: A registration that arrives before the promise of [createClusters] has
    settled is never accepted: with valid fields it is answered 404, the
    zone list being still empty, otherwise 400; nothing is stored and the
    state is left as it was. *)
Theorem registration_before_startup_completes
    (exported : nat) (moduleHeap : nat → list Zone) (stored : list TrafficPoliceData)
    (tr : list Event) (s : Server) :
  run (boot exported moduleHeap stored) tr s →
  ∀ pre req saveOk res post,
    tr = pre ++ Register req saveOk res :: post →
    Forall (λ e, is_settle e = false) pre →
    (res = missing_fields
     ∨ ∃ zoneId : Z, res = status_json 404
                         (Message ("Cluster with ID " +:+ pretty zoneId +:+ " not found")))
    ∧ ∃ s1, run (boot exported moduleHeap stored) pre s1
            ∧ run (boot exported moduleHeap stored) (pre ++ [Register req saveOk res]) s1.
Proof.
  intros Hrun pre req saveOk res post -> Hnone.
  apply run_app in Hrun as (s1 & Hpre & Hrest).
  inversion Hrest as [|? ? s2 ? ? Hstep _]; subst.
  assert (lookedUp s1 = []) as Hempty.
  { apply lookedUp_before_completion.
    - eapply run_invariant; [done | apply boot_invariant].
    - eapply run_not_settled; [done | done | done]. }
  inversion Hstep; subst. rewrite Hempty in *.
  assert (∀ i : Z, js_index ([] : list Zone) i = None) as Hnil.
  { intros i. unfold js_index. by case_decide. }
  destruct (registerTrafficPolice_cases [] saveOk req (registrations s1))
    as [[_ Hout] | (zoneId & name & phone & _ & _ & _ & [[_ Hout] | (zone & Hz & _)])];
    [| |by rewrite Hnil in Hz].
  - rewrite Hout in *. simpl. split; [by left|].
    exists s1. split; [done|]. apply run_app. exists s1. split; [done|].
    eapply run_step; [|constructor].
    rewrite <-(set_registrations_same s1) at 2.
    pose proof (step_register s1 req saveOk) as Hs.
    rewrite Hempty, Hout in Hs. exact Hs.
  - rewrite Hout in *. simpl. split; [right; by exists zoneId|].
    exists s1. split; [done|]. apply run_app. exists s1. split; [done|].
    eapply run_step; [|constructor].
    rewrite <-(set_registrations_same s1) at 2.
    pose proof (step_register s1 req saveOk) as Hs.
    rewrite Hempty, Hout in Hs. exact Hs.
Qed.

(** X6: Whatever happens, stored registrations are never changed or removed:
    a run only appends records, one for each request it answered 201. *)
Theorem registrations_only_grow (tr : list Event) (s s' : Server) :
  run s tr s' →
  ∃ added,
    registrations s' = registrations s ++ added
    ∧ length added = length (filter (λ e, is_created e = true) tr).
Proof.
  induction 1 as [s|s e s1 es s2 Hstep Hrest IH].
  { exists []. by rewrite app_nil_r. }
  destruct IH as (added & Hadded & Hlen).
  inversion Hstep as [ ? Hp | ? ? ? Hp | ? ? Hp | ? ? Hp | ? ? Hp | | ? req saveOk ];
    subst;
    try (rewrite filter_cons_False by (simpl; discriminate);
         exists added; by split).
  destruct (register_store (lookedUp s) saveOk req (registrations s))
    as [(Hcreated & _ & zoneId & name & phone & zone & _ & _ & _ & _ & Hout) | [Hno Hsame]].
  - rewrite filter_cons_True by (simpl; by apply bool_decide_eq_true).
    rewrite Hout in Hadded. simpl in Hadded.
    exists ({| name := name; phone := phone; clusterZone := zone |} :: added).
    split; [by rewrite Hadded, <-app_assoc|].
    simpl. by rewrite Hlen.
  - rewrite filter_cons_False by (simpl; by rewrite bool_decide_eq_true).
    simpl in Hadded. rewrite Hsame in Hadded. exists added. by split.
Qed.

Lemma registration_before_startup_completes_witness :
  (status_json 404 (Message ("Cluster with ID " +:+ pretty 1 +:+ " not found"))
     = missing_fields
   ∨ ∃ zoneId : Z,
       status_json 404 (Message ("Cluster with ID " +:+ pretty 1 +:+ " not found"))
       = status_json 404 (Message ("Cluster with ID " +:+ pretty zoneId +:+ " not found")))
  ∧ ∃ s1, run (boot 0 (λ _, []) []) [Initialize] s1
          ∧ run (boot 0 (λ _, []) [])
                ([Initialize]
                   ++ [Register (registration 1) true
                         (status_json 404
                            (Message ("Cluster with ID " +:+ pretty 1 +:+ " not found")))])
                s1.
Proof.
  destruct (exec sampleFailedStartup (boot 0 (λ _, []) [])) as [s|] eqn:Hexec;
    [|vm_compute in Hexec; discriminate].
  apply exec_run in Hexec.
  apply (registration_before_startup_completes 0 (λ _, []) [] sampleFailedStartup s Hexec
           [Initialize] (registration 1) true _
           [ModuleWrite (ModuleArray 0) [zoneAB]; Fail "catalog unavailable";
            TrafficClusters stillProcessing;
            Register (registration 1) true (registered "Asha" "100" zoneAB);
            TrafficClusters stillProcessing]
           eq_refl).
  repeat constructor.
Defined.

Lemma registrations_only_grow_witness :
  ∃ s', run servingState sampleRegistrations s'
        ∧ ∃ added,
            registrations s' = registrations servingState ++ added
            ∧ length added
              = length (filter (λ e, is_created e = true) sampleRegistrations).
Proof.
  destruct (exec sampleRegistrations servingState) as [s'|] eqn:Hexec;
    [|vm_compute in Hexec; discriminate].
  apply exec_run in Hexec. exists s'. split; [exact Hexec|].
  apply (registrations_only_grow sampleRegistrations servingState s' Hexec).
Defined.

(** X7: [initializeClusters] is called once and has no retry: when the promise
    of [createClusters] rejects, the published list stays empty and every
    zones listing from then on answers 503. *)
Theorem failed_startup_never_recovers
    (exported : nat) (moduleHeap : nat → list Zone) (stored : list TrafficPoliceData)
    (tr : list Event) (s : Server) :
  run (boot exported moduleHeap stored) tr s →
  ∀ pre reason post,
    tr = pre ++ Fail reason :: post →
    phase s = Completed
    ∧ published s = []
    ∧ ∀ a res b, post = a ++ TrafficClusters res :: b → res = stillProcessing.
Proof.
  intros Hrun pre reason post ->.
  apply run_app in Hrun as (s1 & Hpre & Hrest).
  inversion Hrest as [|? ? s2 ? ? Hstep Hpost]; subst.
  pose proof (run_invariant _ _ _ Hpre (boot_invariant _ _ _))
    as (Hc & _ & _ & Hbefore & _).
  inversion Hstep as [ | | | | ? ? Hp | | ]; subst.
  destruct Hbefore as [Hcached _]; [congruence|].
  assert (phase (resume (Rejected reason) s1) = Completed) as Hdone by done.
  assert (published (resume (Rejected reason) s1) = []) as Hpub.
  { unfold published. simpl. by rewrite Hcached. }
  destruct (run_after_startup _ _ _ Hpost Hdone) as (Hh & Hcc & _ & Hphase).
  split; [done|]. split.
  { unfold published in *. by rewrite Hh, Hcc. }
  intros a res b ->.
  apply run_app in Hpost as (s3 & Ha & Hlisting).
  inversion Hlisting as [|? ? ? ? ? Hl _]; subst.
  inversion Hl; subst.
  destruct (run_after_startup _ _ _ Ha Hdone) as (Hh3 & Hc3 & _).
  unfold published in *. by rewrite Hh3, Hc3, Hpub.
Qed.

(** X8: Once the zones listing has answered with zones, it gives that same
    answer to every later request: the list it serves is no longer written,
    so an index read off the listing keeps its meaning. *)
Theorem listing_is_stable_once_served
    (exported : nat) (moduleHeap : nat → list Zone) (stored : list TrafficPoliceData)
    (tr : list Event) (s : Server) :
  run (boot exported moduleHeap stored) tr s →
  ∀ a r1 b r2 c,
    tr = a ++ TrafficClusters r1 :: b ++ TrafficClusters r2 :: c →
    status r1 = 200 →
    r2 = r1.
Proof.
  intros Hrun a r1 b r2 c -> Hserved.
  apply run_app in Hrun as (s1 & Ha & Hrest).
  inversion Hrest as [|? ? s1' ? ? Hfirst Hlater]; subst.
  inversion Hfirst; subst.
  apply run_app in Hlater as (s2 & Hb & Hsecond).
  inversion Hsecond as [|? ? ? ? ? Hl _]; subst.
  inversion Hl; subst.
  assert (phase s1' = Completed) as Hdone.
  { destruct (phase s1') eqn:Hph; [| |done];
      (destruct (lookedUp_before_completion s1') as [_ Hempty];
       [ eapply run_invariant; [done | apply boot_invariant]
       | congruence
       | rewrite Hempty in Hserved; discriminate ]). }
  destruct (run_after_startup _ _ _ Hb Hdone) as (Hh & Hc & _).
  unfold published. by rewrite Hh, Hc.
Qed.

(** X9: [unfilteredClusters = clusters] stands after the try/catch, so it runs
    whether the promise fulfilled or rejected: from then on registrations
    resolve zones in the array the module exported at that moment, as it was
    then, and that array is never one of the literals of [index.js]. *)
Theorem lookups_use_the_exported_list
    (exported : nat) (moduleHeap : nat → list Zone) (stored : list TrafficPoliceData)
    (tr : list Event) (s : Server) :
  run (boot exported moduleHeap stored) tr s →
  ∀ pre e post s1,
    tr = pre ++ e :: post →
    is_settle e = true →
    run (boot exported moduleHeap stored) pre s1 →
    unfilteredClusters s = clusters s1
    ∧ lookedUp s = heap s1 (clusters s1)
    ∧ is_module_array (unfilteredClusters s) = true.
Proof.
  intros Hrun pre e post s1 -> He Hpre.
  apply run_app in Hrun as (s1' & Hpre' & Hrest).
  rewrite <-(run_deterministic _ _ _ _ Hpre Hpre') in Hrest.
  inversion Hrest as [|? ? s2 ? ? Hstep Hpost]; subst.
  pose proof (run_invariant _ _ _ Hpre (boot_invariant _ _ _))
    as (_ & _ & Hm & _ & _).
  assert (phase s2 = Completed ∧ unfilteredClusters s2 = clusters s1
          ∧ heap s2 = heap s1) as (Hdone & Hunf & Hheap).
  { inversion Hstep; subst; simpl in He; try discriminate; done. }
  destruct (run_after_startup _ _ _ Hpost Hdone) as (Hh & _ & Hu & _).
  unfold lookedUp. rewrite Hh, Hu, Hunf, Hheap. done.
Qed.

Lemma failed_startup_never_recovers_witness :
  ∃ s, run (boot 0 (λ _, []) []) sampleFailedStartup s
       ∧ phase s = Completed
       ∧ published s = []
       ∧ ∀ a res b,
           [TrafficClusters stillProcessing;
            Register (registration 1) true (registered "Asha" "100" zoneAB);
            TrafficClusters stillProcessing] = a ++ TrafficClusters res :: b →
           res = stillProcessing.
Proof.
  destruct (exec sampleFailedStartup (boot 0 (λ _, []) [])) as [s|] eqn:Hexec;
    [|vm_compute in Hexec; discriminate].
  apply exec_run in Hexec. exists s. split; [exact Hexec|].
  apply (failed_startup_never_recovers 0 (λ _, []) [] sampleFailedStartup s Hexec
           [Initialize;
            Register (registration 1) true
              (status_json 404
                 (Message ("Cluster with ID " +:+ pretty 1 +:+ " not found")));
            ModuleWrite (ModuleArray 0) [zoneAB]]
           "catalog unavailable"
           [TrafficClusters stillProcessing;
            Register (registration 1) true (registered "Asha" "100" zoneAB);
            TrafficClusters stillProcessing]
           eq_refl).
Defined.

Lemma listing_is_stable_once_served_witness :
  ∃ s, run (boot 0 (λ _, []) []) sampleServing s
       ∧ json (Clusters sampleZones) = json (Clusters sampleZones).
Proof.
  destruct (exec sampleServing (boot 0 (λ _, []) [])) as [s|] eqn:Hexec;
    [|vm_compute in Hexec; discriminate].
  apply exec_run in Hexec. exists s. split; [exact Hexec|].
  apply (listing_is_stable_once_served 0 (λ _, []) [] sampleServing s Hexec
           [TrafficClusters stillProcessing; Initialize;
            ModuleWrite (ModuleArray 1) [zoneAB];
            TrafficClusters stillProcessing;
            ModuleWrite (ModuleArray 1) sampleZones;
            ModuleExport (ModuleArray 1); Resolve (ModuleArray 1)]
           (json (Clusters sampleZones)) []
           (json (Clusters sampleZones)) [] eq_refl).
  reflexivity.
Defined.

Lemma lookups_use_the_exported_list_witness :
  ∃ s s1, run (boot 0 (λ _, []) []) sampleFailedStartup s
          ∧ unfilteredClusters s = clusters s1
          ∧ lookedUp s = heap s1 (clusters s1)
          ∧ is_module_array (unfilteredClusters s) = true.
Proof.
  destruct (exec sampleFailedStartup (boot 0 (λ _, []) [])) as [s|] eqn:Hexec;
    [|vm_compute in Hexec; discriminate].
  destruct (exec [Initialize;
                  Register (registration 1) true
                    (status_json 404
                       (Message ("Cluster with ID " +:+ pretty 1 +:+ " not found")));
                  ModuleWrite (ModuleArray 0) [zoneAB]] (boot 0 (λ _, []) []))
    as [s1|] eqn:Hpre; [|vm_compute in Hpre; discriminate].
  apply exec_run in Hexec. apply exec_run in Hpre.
  exists s, s1. split; [exact Hexec|].
  apply (lookups_use_the_exported_list 0 (λ _, []) [] sampleFailedStartup s Hexec
           [Initialize;
            Register (registration 1) true
              (status_json 404
                 (Message ("Cluster with ID " +:+ pretty 1 +:+ " not found")));
            ModuleWrite (ModuleArray 0) [zoneAB]]
           (Fail "catalog unavailable")
           [TrafficClusters stillProcessing;
            Register (registration 1) true (registered "Asha" "100" zoneAB);
            TrafficClusters stillProcessing]
           s1 eq_refl eq_refl Hpre).
Defined.

(** ** Lookup and listing after start-up *)






(** ** Socket: coordinate order and short coordinate arrays *)

(** X10: GeoJSON keeps a position as [lng, lat, ...]; the handler emits it as
    [{lat, lng}] and ignores any further coordinate.  A signal whose array
    is too short is still emitted, with [lat] (or both) undefined: whenever
    the matcher answers, the emission is an array with one entry per
    signal. *)
Theorem emitted_entries_follow_geojson
    (matcher : list GeoPoint → Outcome (list MatchResult))
    (route : list GeoPoint) (signals : list MatchResult) :
  matcher route = Fulfilled signals →
  ∃ entries,
    payload (onRequestTrafficSignals matcher route) = MatchedData entries
    ∧ Forall2
        (λ s e,
           (∀ x y rest, coordinates (geometry (trafficSignal s)) = x :: y :: rest →
                        e = {| ll_lat := Some y; ll_lng := Some x |})
           ∧ (is_Some (ll_lat e)
              ↔ (2 ≤ length (coordinates (geometry (trafficSignal s))))%nat)
           ∧ (is_Some (ll_lng e)
              ↔ (1 ≤ length (coordinates (geometry (trafficSignal s))))%nat))
        signals entries.
Proof.
  intros Hfound. exists (map toLatLng signals).
  unfold onRequestTrafficSignals. rewrite Hfound. split; [done|].
  apply Forall2_fmap_r, Forall_Forall2_diag, Forall_forall.
  intros s _. unfold toLatLng. simpl.
  change (js_index (coordinates (geometry (trafficSignal s))) 1)
    with (coordinates (geometry (trafficSignal s)) !! 1%nat).
  change (js_index (coordinates (geometry (trafficSignal s))) 0)
    with (coordinates (geometry (trafficSignal s)) !! 0%nat).
  split; [|split].
  - intros x y rest ->. reflexivity.
  - rewrite lookup_lt_is_Some. lia.
  - rewrite lookup_lt_is_Some. lia.
Qed.

Lemma emitted_entries_follow_geojson_witness :
  ∃ entries,
    payload (onRequestTrafficSignals
               (λ _, Fulfilled [sampleMatch "n1" 0 12 [deg 73850; deg 18500; num 560];
                                sampleMatch "n2" 1 30 [deg 73851]])
               sampleRoute) = MatchedData entries
    ∧ length entries = 2%nat.
Proof.
  destruct (emitted_entries_follow_geojson
              (λ _, Fulfilled [sampleMatch "n1" 0 12 [deg 73850; deg 18500; num 560];
                               sampleMatch "n2" 1 30 [deg 73851]])
              sampleRoute
              [sampleMatch "n1" 0 12 [deg 73850; deg 18500; num 560];
               sampleMatch "n2" 1 30 [deg 73851]]
              eq_refl) as (entries & Hpayload & Hall).
  exists entries. split; [exact Hpayload|].
  symmetry. exact (Forall2_length _ _ _ Hall).
Defined.

(** * Properties of the ambulance main page *)

Module AmbulanceMainPageFacts.
Import AmbulanceMainPage.

(** ** The error message *)

Lemma truthy_message (message : string) :
  message ≠ "" → is_Some (truthy_string (Some message)).
Proof. intros H. rewrite truthy_string_Some by done. by eexists. Qed.

Lemma handle_keeps_error (toString : number → string) (e : PageEvent) (s : Page) :
  is_Some (truthy_string (error s)) →
  is_Some (truthy_string (error (handle toString e s))).
Proof.
  intros Herr.
  destruct e as [loadError | mapInstance | closure inputMounted first permission second
                 | place | place | result status | | confirmLogout ]; simpl.
  - unfold authEffect. destruct loadError; simpl;
      repeat case_match; simpl; try done; by apply truthy_message.
  - done.
  - unfold fetchCurrentLocation.
    repeat case_match; simpl; try done; by apply truthy_message.
  - unfold sourcePlaceChanged. by case_match.
  - unfold destinationPlaceChanged. by case_match.
  - unfold directionsAnswered.
    repeat case_match; simpl; try done; by apply truthy_message.
  - unfold handleStartTrip. repeat case_match; simpl; try done; by apply truthy_message.
  - unfold logout. by case_match.
Qed.

Lemma handleAll_keeps_error (toString : number → string) (es : list PageEvent)
    (s : Page) :
  is_Some (truthy_string (error s)) →
  is_Some (truthy_string (error (handleAll toString es s))).
Proof.
  revert s. induction es as [|e es IH]; intros s Herr; [done|].
  simpl. apply IH. by apply handle_keeps_error.
Qed.

Lemma render_with_error (isLoaded : bool) (s : Page) :
  is_Some (truthy_string (error s)) → render isLoaded s ≠ Portal.
Proof.
  intros [message Hm]. unfold render. rewrite Hm. by destruct isLoaded.
Qed.

(** X11: No handler ever clears the error: once a message is set, whatever
    happens afterwards the component shows a message (or the loading text)
    and never the portal again. *)
Theorem error_is_never_cleared (toString : number → string)
    (es : list PageEvent) (s : Page) (message : string) :
  truthy_string (error s) = Some message →
  (∃ message', truthy_string (error (handleAll toString es s)) = Some message')
  ∧ ∀ isLoaded, render isLoaded (handleAll toString es s) ≠ Portal.
Proof.
  intros Hm.
  assert (is_Some (truthy_string (error (handleAll toString es s)))) as Hlater.
  { apply handleAll_keeps_error. by eexists. }
  split; [exact Hlater|].
  intros isLoaded. by apply render_with_error.
Qed.

(** X12: Pressing Start while the source or the destination is missing opens
    nothing and sets the error; from then on the portal is never rendered
    again, whatever the user does next. *)
Theorem start_without_markers_blocks_the_page (toString : number → string)
    (s : Page) (es : list PageEvent) :
  sourceMarker s = None ∨ destinationMarker s = None →
  opened (handleStartTrip toString s) = opened s
  ∧ ∀ isLoaded, render isLoaded (handleAll toString (StartTrip :: es) s) ≠ Portal.
Proof.
  intros Hmissing.
  assert (handleStartTrip toString s
          = setError
              (Some "Please set both source and destination before starting the trip.")
              s) as Hstart.
  { unfold handleStartTrip.
    destruct Hmissing as [-> | Hd]; [done|].
    rewrite Hd. by destruct (sourceMarker s). }
  split; [by rewrite Hstart|].
  intros isLoaded. simpl. rewrite Hstart.
  apply render_with_error, handleAll_keeps_error. simpl. by eexists.
Qed.

(** X13: Asking for the current location while the handler still sees no map
    sets the marker and the input, and then reports a failure all the same:
    [map.panTo] throws on the missing map, the error becomes "Failed to get
    current location", and the page is left showing it. *)
Theorem location_without_map_sets_marker_and_fails (toString : number → string)
    (closure s : Page) (inputMounted : bool) (before coords : Coords) :
  map closure = None →
  sourceMarker
    (fetchCurrentLocation toString closure inputMounted
       (Fulfilled before) (Fulfilled "granted") (Fulfilled coords) s)
    = Some {| position := coords; title := "Current Location" |}
  ∧ currentLocation
      (fetchCurrentLocation toString closure inputMounted
         (Fulfilled before) (Fulfilled "granted") (Fulfilled coords) s)
    = Some coords
  ∧ error
      (fetchCurrentLocation toString closure inputMounted
         (Fulfilled before) (Fulfilled "granted") (Fulfilled coords) s)
    = Some "Failed to get current location"
  ∧ ∀ es,
      render true
        (handleAll toString es
           (fetchCurrentLocation toString closure inputMounted
              (Fulfilled before) (Fulfilled "granted") (Fulfilled coords) s))
      ≠ Portal.
Proof.
  intros Hmap. unfold fetchCurrentLocation. simpl. rewrite Hmap.
  split; [done|]. split; [by destruct inputMounted|]. split; [done|].
  intros es. apply render_with_error, handleAll_keeps_error. simpl. by eexists.
Qed.

(** ** Trips *)

Lemma handle_without_destination (toString : number → string) (e : PageEvent)
    (s : Page) :
  destinationMarker s = None →
  is_destination_choice e = false →
  destinationMarker (handle toString e s) = None
  ∧ opened (handle toString e s) = opened s.
Proof.
  intros Hnone He.
  destruct e as [loadError | mapInstance | closure inputMounted first permission second
                 | place | place | result status | | confirmLogout ];
    simpl in *; try discriminate.
  - unfold authEffect. repeat case_match; simpl; done.
  - done.
  - unfold fetchCurrentLocation. repeat case_match; simpl; done.
  - unfold sourcePlaceChanged. by case_match.
  - unfold directionsAnswered. repeat case_match; simpl; done.
  - unfold handleStartTrip. rewrite Hnone. by destruct (sourceMarker s).
  - unfold logout. by case_match.
Qed.

(** X14: Without a destination chosen in the autocomplete no trip is ever
    opened: the destination marker stays unset and [window.open] is not
    called, whatever else happens. *)
Theorem no_trip_without_destination (toString : number → string)
    (es : list PageEvent) (s : Page) :
  destinationMarker s = None →
  Forall (λ e, is_destination_choice e = false) es →
  destinationMarker (handleAll toString es s) = None
  ∧ opened (handleAll toString es s) = opened s.
Proof.
  revert s. induction es as [|e es IH]; intros s Hnone Hes; [done|].
  apply Forall_cons in Hes as [He Hes].
  destruct (handle_without_destination toString e s Hnone He) as [Hd Ho].
  simpl. destruct (IH _ Hd Hes) as [Hd' Ho'].
  split; [done | congruence].
Qed.

(** ** The session *)

Lemma handle_keeps_storage (toString : number → string) (e : PageEvent) (s : Page) :
  is_confirmed_logout e = false →
  storage (handle toString e s) = storage s.
Proof.
  intros He.
  destruct e as [loadError | mapInstance | closure inputMounted first permission second
                 | place | place | result status | | confirmLogout ];
    simpl in *.
  - unfold authEffect. repeat case_match; simpl; done.
  - done.
  - unfold fetchCurrentLocation. repeat case_match; simpl; done.
  - unfold sourcePlaceChanged. by case_match.
  - unfold destinationPlaceChanged. by case_match.
  - unfold directionsAnswered. repeat case_match; simpl; done.
  - unfold handleStartTrip. repeat case_match; simpl; done.
  - by destruct confirmLogout.
Qed.

(** X15: Nothing but a confirmed logout writes to [localStorage]. *)
Theorem storage_changes_only_on_confirmed_logout (toString : number → string)
    (es : list PageEvent) (s : Page) :
  Forall (λ e, is_confirmed_logout e = false) es →
  storage (handleAll toString es s) = storage s.
Proof.
  revert s. induction es as [|e es IH]; intros s Hes; [done|].
  apply Forall_cons in Hes as [He Hes].
  simpl. rewrite (IH _ Hes). by apply handle_keeps_storage.
Qed.

(** X16: A confirmed logout removes the token and the user type, keeps every
    other key, and leaves for the sign-in page; the auth check of a page
    mounted over that storage then leaves for "/".  A cancelled logout
    changes nothing. *)
Theorem confirmed_logout_ends_the_session (s : Page) (loadError : bool) :
  storage (logout true s) !! "authToken" = None
  ∧ storage (logout true s) !! "userType" = None
  ∧ (∀ key, key ≠ "authToken" → key ≠ "userType" →
            storage (logout true s) !! key = storage s !! key)
  ∧ pushed (logout true s) = pushed s ++ ["/ambulance-signin"]
  ∧ pushed (authEffect loadError (mounted (storage (logout true s)))) = ["/"]
  ∧ logout false s = s.
Proof.
  unfold logout. simpl.
  split; [by rewrite lookup_delete_ne, lookup_delete_eq|].
  split; [by rewrite lookup_delete_eq|].
  split; [intros key H1 H2; by rewrite !lookup_delete_ne|].
  split; [done|]. split; [|done].
  unfold authEffect, hasItem.
  destruct loadError; simpl;
    rewrite lookup_delete_ne, !lookup_delete_eq by done; done.
Qed.

(** ** The properties above on the sample page *)

Lemma error_is_never_cleared_witness :
  (∃ message',
     truthy_string
       (error (handleAll sampleToString [SourcePlaceChanged hospital; Logout false]
                 (handleStartTrip sampleToString signedIn))) = Some message')
  ∧ ∀ isLoaded,
      render isLoaded
        (handleAll sampleToString [SourcePlaceChanged hospital; Logout false]
           (handleStartTrip sampleToString signedIn)) ≠ Portal.
Proof.
  apply (error_is_never_cleared sampleToString
           [SourcePlaceChanged hospital; Logout false]
           (handleStartTrip sampleToString signedIn)
           "Please set both source and destination before starting the trip.").
  reflexivity.
Defined.

Lemma start_without_markers_blocks_the_page_witness :
  opened (handleStartTrip sampleToString signedIn) = opened signedIn
  ∧ ∀ isLoaded,
      render isLoaded
        (handleAll sampleToString
           (StartTrip :: [DestinationPlaceChanged hospital; StartTrip]) signedIn)
      ≠ Portal.
Proof.
  apply (start_without_markers_blocks_the_page sampleToString signedIn
           [DestinationPlaceChanged hospital; StartTrip]).
  left. reflexivity.
Defined.

Lemma location_without_map_sets_marker_and_fails_witness :
  sourceMarker
    (fetchCurrentLocation sampleToString signedIn true
       (Fulfilled here) (Fulfilled "granted") (Fulfilled here) signedIn)
    = Some {| position := here; title := "Current Location" |}.
Proof.
  apply (proj1 (location_without_map_sets_marker_and_fails sampleToString
                  signedIn signedIn true here here eq_refl)).
Defined.

Lemma no_trip_without_destination_witness :
  destinationMarker
    (handleAll sampleToString
       [MapLoaded 1; SourcePlaceChanged hospital; StartTrip; Logout false] signedIn)
    = None
  ∧ opened
      (handleAll sampleToString
         [MapLoaded 1; SourcePlaceChanged hospital; StartTrip; Logout false] signedIn)
    = opened signedIn.
Proof.
  apply (no_trip_without_destination sampleToString
           [MapLoaded 1; SourcePlaceChanged hospital; StartTrip; Logout false] signedIn).
  - reflexivity.
  - repeat constructor.
Defined.

Lemma storage_changes_only_on_confirmed_logout_witness :
  storage
    (handleAll sampleToString
       [AuthEffect true; SourcePlaceChanged hospital; Logout false; StartTrip] signedIn)
    = storage signedIn.
Proof.
  apply (storage_changes_only_on_confirmed_logout sampleToString
           [AuthEffect true; SourcePlaceChanged hospital; Logout false; StartTrip]
           signedIn).
  repeat constructor.
Defined.

Lemma confirmed_logout_ends_the_session_witness :
  storage (logout true signedIn) !! "theme" = storage signedIn !! "theme".
Proof.
  apply (proj1 (proj2 (proj2 (confirmed_logout_ends_the_session signedIn false)))
           "theme"); discriminate.
Defined.

End AmbulanceMainPageFacts.
